(** * Shortcut-Composer: a shallow embedding of the configuration fields,
      the double-axis tracker, the pie manager with its label animator and
      the undo / preset controllers, with the properties stated about them.

    Conventions of the embedding.
    - Python [int] is [Z]; a finite Python [float] is the rational it
      denotes ([Q]); comparisons of floats are comparisons of rationals.
    - The Krita settings store is a finite map from (group, name) to the
      raw string; every call that reaches the host is recorded in a trace.
    - Methods that can raise return a sum whose left side is the exception.
    - Objects of the host or of modules that are not part of the embedded
      files (slider handlers, the Qt timer, the circle geometry) appear
      through the calls made on them. *)

From Stdlib Require Import Ascii String ZArith QArith Qround Qminmax Lia Lqa.
From stdpp Require Import base option list gmap strings pretty.

Open Scope Z_scope.

(* ================================================================== *)
(** * Part I. The embedding                                            *)
(* ================================================================== *)

(** ** Python values and the built-ins the sources rely on *)
Module Py.

(** Runtime classes of the values a configuration field can hold. *)
Inductive PyType : Type :=
| TBool
| TInt
| TFloat
| TStr
| TEnum (cls : string)
| TList.

(** Values: [VEnum cls member] is a member of the [Enum] class [cls];
    [VList] is a list of enum members, the only lists a field stores
    ([ListT] is bound by [List[Enum]]). *)
Inductive PyVal : Type :=
| VBool (b : bool)
| VInt (z : Z)
| VFloat (q : Q)
| VStr (s : string)
| VEnum (cls member : string)
| VList (items : list (string * string)).

Inductive PyExn : Type :=
| TypeError (value : PyVal) (expected : PyType)
| KeyError (key : string)
| AttributeError (attr : string).

#[global] Instance PyType_eq_dec : EqDecision PyType.
Proof. solve_decision. Defined.

(** [type(v)] *)
Definition type_of (v : PyVal) : PyType :=
  match v with
  | VBool _ => TBool
  | VInt _ => TInt
  | VFloat _ => TFloat
  | VStr _ => TStr
  | VEnum cls _ => TEnum cls
  | VList _ => TList
  end.

(** [issubclass(t, u)]: every class is its own subclass and [bool] is a
    subclass of [int]. *)
Definition issubclass (t u : PyType) : bool :=
  bool_decide (t = u) ||
  match t, u with
  | TBool, TInt => true
  | _, _ => false
  end.

(** [isinstance(v, t)] *)
Definition isinstance (v : PyVal) (t : PyType) : bool :=
  issubclass (type_of v) t.

(** The number a numeric value denotes ([True] is 1, [False] is 0). *)
Definition as_number (v : PyVal) : option Q :=
  match v with
  | VBool b => Some (if b then 1%Q else 0%Q)
  | VInt z => Some (inject_Z z)
  | VFloat q => Some q
  | _ => None
  end.

(** [a == b]: numbers compare by value across [bool], [int] and [float];
    strings, enum members and lists compare with their own kind only. *)
Definition py_eq (a b : PyVal) : bool :=
  match as_number a, as_number b with
  | Some x, Some y => Qeq_bool x y
  | _, _ =>
    match a, b with
    | VStr s, VStr s' => bool_decide (s = s')
    | VEnum c m, VEnum c' m' => bool_decide (c = c') && bool_decide (m = m')
    | VList l, VList l' => bool_decide (l = l')
    | _, _ => false
    end
  end.

(** [round(x)] with one argument: the nearest integer, ties to the even
    one. *)
Definition py_round (x : Q) : Z :=
  let f := Qfloor x in
  match Qcompare (x - inject_Z f) (1 # 2) with
  | Lt => f
  | Gt => f + 1
  | Eq => if Z.even f then f else f + 1
  end.

(** [a / b] on integers (true division); callers guard [b = 0]. *)
Definition py_truediv (a b : Z) : Q := (inject_Z a / inject_Z b)%Q.

(** Truth value of an [int]. *)
Definition truthy (z : Z) : bool := negb (z =? 0).

(** [d[k]] on a dict with string keys. *)
Definition dict_getitem {V : Type} (d : gmap string V) (k : string)
  : PyExn + V :=
  match d !! k with
  | Some v => inr v
  | None => inl (KeyError k)
  end.

End Py.
Export Py.

(** ** The host: settings store, trace of host calls, effect monad *)
Module Krita.

Definition Key : Type := string * string.

(** Calls that reach the host: a field's [read()], the raw
    [read_setting], [write_setting], and the run of a change callback. *)
Inductive Event : Type :=
| EvRead (group name : string)
| EvReadSetting (group name : string)
| EvWriteSetting (group name value : string)
| EvCallback (id : nat).

Record World : Type := mkWorld {
  store : gmap Key string;
  trace : list Event
}.

(** Computations over the host that may raise. *)
Definition M (A : Type) : Type := World -> (PyExn + A) * World.

Definition ret {A : Type} (a : A) : M A := fun w => (inr a, w).

Definition raise {A : Type} (e : PyExn) : M A := fun w => (inl e, w).

Definition bind {A B : Type} (m : M A) (k : A -> M B) : M B :=
  fun w =>
    match m w with
    | (inl e, w') => (inl e, w')
    | (inr a, w') => k a w'
    end.

Definition emit (e : Event) : M unit :=
  fun w => (inr tt, mkWorld (store w) (trace w ++ [e])).

(** [Krita.read_setting(group, name)]: the raw string or [None]. *)
Definition read_setting (group name : string) : M (option string) :=
  fun w =>
    (inr (store w !! (group, name)),
     mkWorld (store w) (trace w ++ [EvReadSetting group name])).

(** [Krita.write_setting(group, name, value)] *)
Definition write_setting (group name value : string) : M unit :=
  fun w =>
    (inr tt,
     mkWorld (<[(group, name) := value]> (store w))
             (trace w ++ [EvWriteSetting group name value])).

(** The events of a trace that are not reads: store writes and callbacks. *)
Definition is_mutation (e : Event) : bool :=
  match e with
  | EvRead _ _ | EvReadSetting _ _ => false
  | _ => true
  end.

Definition mutations (tr : list Event) : list Event :=
  List.filter is_mutation tr.

(** The values written under key [k], in order. *)
Definition writes_to (k : Key) (tr : list Event) : list string :=
  omap (fun e => match e with
                 | EvWriteSetting g n v =>
                   if bool_decide ((g, n) = k) then Some v else None
                 | _ => None
                 end) tr.

End Krita.
Export Krita.

Notation "'let*' x ':=' c1 'in' c2" := (bind c1 (fun x => c2))
  (at level 10, x pattern, c1 at level 100, c2 at level 200).

(** ** config_system/field_base.py *)
Module FieldSystem.

(** A configuration field. [read] and [_to_string] are abstract in
    [FieldBase]; an implementation supplies them ([field_read] gives the
    value [read()] returns on a store, [field_to_string] is
    [_to_string]). Callbacks are opaque callables, known by an id. *)
Record FieldBase : Type := mkField {
  config_group : string;
  name : string;
  default : PyVal;
  on_change_callbacks : list nat;
  field_read : gmap Key string -> PyVal;
  field_to_string : PyVal -> string
}.

Definition key (f : FieldBase) : Key := (config_group f, name f).

(** [register_callback]: the callback is appended to the internal list. *)
Definition register_callback (f : FieldBase) (callback : nat) : FieldBase :=
  mkField (config_group f) (name f) (default f)
          (on_change_callbacks f ++ [callback])
          (field_read f) (field_to_string f).

(** [read()]: the value parsed from the store. *)
Definition read (f : FieldBase) : M PyVal :=
  fun w =>
    (inr (field_read f (store w)),
     mkWorld (store w) (trace w ++ [EvRead (config_group f) (name f)])).

(** [for callback in self._on_change_callbacks: callback()] *)
Fixpoint run_callbacks (callbacks : list nat) : M unit :=
  match callbacks with
  | [] => ret tt
  | callback :: rest =>
    let* _ := emit (EvCallback callback) in run_callbacks rest
  end.

(** [_is_write_redundant] *)
Definition _is_write_redundant (f : FieldBase) (value : PyVal) : M bool :=
  let* current := read f in
  if py_eq current value then ret true
  else
    let* raw := read_setting (config_group f) (name f) in
    ret (bool_decide (raw = None) && py_eq value (default f)).

(** [write] *)
Definition write (f : FieldBase) (value : PyVal) : M unit :=
  if negb (isinstance value (type_of (default f))) then
    raise (TypeError value (type_of (default f)))
  else
    let* redundant := _is_write_redundant f value in
    if redundant then ret tt
    else
      let* _ := write_setting (config_group f) (name f)
                              (field_to_string f value) in
      run_callbacks (on_change_callbacks f).

(** [reset_default] *)
Definition reset_default (f : FieldBase) : M unit := write f (default f).

(** When a write is redundant, in the words of the docstring of
    [_is_write_redundant]: the value is the same as the one stored in
    file, or the value is a default one and it is not present in file. *)
Definition redundant (f : FieldBase) (st : gmap Key string) (v : PyVal)
  : Prop :=
  py_eq (field_read f st) v = true \/
  (st !! key f = None /\ py_eq v (default f) = true).

(** A field is stale when an entry is stored for it and the value read
    differs from its default. *)
Definition stale (f : FieldBase) (st : gmap Key string) : Prop :=
  is_Some (st !! key f) /\ py_eq (field_read f st) (default f) = false.

(** A field whose [read] looks at its own entry of the store only. *)
Definition reads_own_key (f : FieldBase) : Prop :=
  forall st st' : gmap Key string,
    st !! key f = st' !! key f -> field_read f st = field_read f st'.

End FieldSystem.
Export FieldSystem.

(** ** The parsers and [ImmutableField] used by the global configuration *)
Module Fields.

Definition digit_value (c : ascii) : option Z :=
  let n := Z.of_nat (nat_of_ascii c) - 48 in
  if (0 <=? n) && (n <=? 9) then Some n else None.

Fixpoint parse_digits (acc : Z) (s : string) : option Z :=
  match s with
  | EmptyString => Some acc
  | String c rest =>
    match digit_value c with
    | Some d => parse_digits (acc * 10 + d) rest
    | None => None
    end
  end.

Definition parse_unsigned (s : string) : option Z :=
  match s with
  | EmptyString => None
  | _ => parse_digits 0 s
  end.

(** Text before the first dot, and the text after it when there is one. *)
Fixpoint split_dot (s : string) : string * option string :=
  match s with
  | EmptyString => (EmptyString, None)
  | String c rest =>
    if Ascii.eqb c "."%char then (EmptyString, Some rest)
    else let '(a, b) := split_dot rest in (String c a, b)
  end.

Definition parse_unsigned_float (s : string) : option Q :=
  let '(whole, frac) := split_dot s in
  match parse_unsigned whole, frac with
  | Some i, None => Some (inject_Z i)
  | Some i, Some digits =>
    match parse_digits 0 digits with
    | Some n =>
      Some (inject_Z i +
            inject_Z n / inject_Z (10 ^ Z.of_nat (String.length digits)))%Q
    | None => None
    end
  | None, _ => None
  end.

Definition with_sign {A : Type} (neg : A -> A) (p : string -> option A)
  (s : string) : option A :=
  match s with
  | String c rest =>
    if Ascii.eqb c "-"%char then neg <$> p rest else p s
  | EmptyString => p s
  end.

(** Modelled from the spec: the per-type parsers ([BasicParser] for int,
    float and str, [BoolParser]) of the parsers module, which serialise a
    typed value to the store's string and back. Numbers are read and
    written in plain decimal; a text that does not parse gives [None]. *)
Definition parse_to (t : PyType) (raw : string) : option PyVal :=
  match t with
  | TInt => VInt <$> with_sign Z.opp parse_unsigned raw
  | TFloat => VFloat <$> with_sign Qopp parse_unsigned_float raw
  | TStr => Some (VStr raw)
  | TBool => Some (VBool (bool_decide (raw = "true"%string)))
  | _ => None
  end.

(** Decimal digits of [num / den] after the dot, for [0 <= num < den]. *)
Fixpoint frac_digits (fuel : nat) (num den : Z) : string :=
  match fuel with
  | O => EmptyString
  | S k =>
    let d := (num * 10) / den in
    let r := (num * 10) mod den in
    pretty d +:+ (if r =? 0 then EmptyString else frac_digits k r den)
  end.

Definition float_to_string (q : Q) : string :=
  let n := Z.abs (Qnum q) in
  let d := Zpos (Qden q) in
  (if Qnum q <? 0 then "-"%string else EmptyString) +:+
  pretty (n / d) +:+ "."%string +:+ frac_digits 17 (n mod d) d.

(** Modelled from the spec: the string a parser stores for a value. *)
Definition parse_from (v : PyVal) : string :=
  match v with
  | VBool b => if b then "true"%string else "false"%string
  | VInt z => pretty z
  | VFloat q => float_to_string q
  | VStr s => s
  | VEnum _ member => member
  | VList items => String.concat (String "009"%char EmptyString) (items.*2)
  end.

(** Modelled from the spec: [ImmutableField(name, default)], the field
    class of the global configuration, which is not among the embedded
    files: a field of the plugin's own group whose [read] returns the
    default when nothing is stored or the stored text does not parse, and
    the parsed value otherwise. *)
Definition ImmutableField (name : string) (default : PyVal) : FieldBase :=
  let group := "ShortcutComposer"%string in
  mkField group name default []
    (fun st =>
       match st !! (group, name) with
       | None => default
       | Some raw => from_option id default (parse_to (type_of default) raw)
       end)
    parse_from.

End Fields.
Export Fields.

(** ** composer_utils/config/global_config.py *)
Module GlobalConfig.

(** An entry of a class [__dict__]: a field, or anything else (a
    method, the docstring, the module name). *)
Inductive ClassAttr : Type :=
| AttrField (f : FieldBase)
| AttrOther.

Definition SHORT_VS_LONG_PRESS_TIME : FieldBase :=
  ImmutableField "Short vs long press time" (VFloat (3 # 10)).
Definition TRACKER_SENSITIVITY_SCALE : FieldBase :=
  ImmutableField "Tracker sensitivity scale" (VFloat 1).
Definition TRACKER_DEADZONE : FieldBase :=
  ImmutableField "Tracker deadzone" (VInt 0).
Definition FPS_LIMIT : FieldBase :=
  ImmutableField "FPS limit" (VInt 60).
Definition PIE_GLOBAL_SCALE : FieldBase :=
  ImmutableField "Pie global scale" (VFloat 1).
Definition PIE_ICON_GLOBAL_SCALE : FieldBase :=
  ImmutableField "Pie icon global scale" (VFloat 1).
Definition PIE_DEADZONE_GLOBAL_SCALE : FieldBase :=
  ImmutableField "Pie deadzone global scale" (VFloat 1).
Definition PIE_ANIMATION_TIME : FieldBase :=
  ImmutableField "Pie animation time" (VFloat (2 # 10)).

(** [Config.__dict__], in definition order. *)
Definition Config : list (string * ClassAttr) :=
  [ ("__module__"%string, AttrOther);
    ("__doc__"%string, AttrOther);
    ("SHORT_VS_LONG_PRESS_TIME"%string, AttrField SHORT_VS_LONG_PRESS_TIME);
    ("TRACKER_SENSITIVITY_SCALE"%string, AttrField TRACKER_SENSITIVITY_SCALE);
    ("TRACKER_DEADZONE"%string, AttrField TRACKER_DEADZONE);
    ("FPS_LIMIT"%string, AttrField FPS_LIMIT);
    ("PIE_GLOBAL_SCALE"%string, AttrField PIE_GLOBAL_SCALE);
    ("PIE_ICON_GLOBAL_SCALE"%string, AttrField PIE_ICON_GLOBAL_SCALE);
    ("PIE_DEADZONE_GLOBAL_SCALE"%string, AttrField PIE_DEADZONE_GLOBAL_SCALE);
    ("PIE_ANIMATION_TIME"%string, AttrField PIE_ANIMATION_TIME);
    ("reset_defaults"%string, AttrOther);
    ("get_sleep_time"%string, AttrOther) ].

(** The values of a class dict that are [FieldBase] instances. *)
Definition fields_of (cls : list (string * ClassAttr)) : list FieldBase :=
  omap (fun entry => match entry.2 with
                     | AttrField f => Some f
                     | AttrOther => None
                     end) cls.

(** [reset_defaults]: visits the values of the class dict in order and
    resets those that are fields. *)
Fixpoint reset_defaults (cls : list (string * ClassAttr)) : M unit :=
  match cls with
  | [] => ret tt
  | (_, AttrField config_field) :: rest =>
    let* _ := reset_default config_field in reset_defaults rest
  | (_, AttrOther) :: rest => reset_defaults rest
  end.

(** [get_sleep_time], on the integer [FPS_LIMIT.read()] returned. The
    quotient [1000/fps_limit] of two integers is a float; it is a tie
    (k + 0.5) only when [2000/fps_limit] is an odd integer (16, 80, 400,
    2000 and their opposites), where the float is exact, and is otherwise
    farther from every tie than the float's rounding error, so rounding
    the rational gives the integer Python returns. *)
Definition get_sleep_time (fps_limit : Z) : Z :=
  if truthy fps_limit then py_round (py_truediv 1000 fps_limit) else 1.

End GlobalConfig.
Export GlobalConfig.

(** ** core_components/controllers: [UndoController], [PresetController] *)
Module Controllers.

(** [UndoController]: the remembered position on the undo stack. *)
Record UndoController : Type := mkUndo { state : Z }.

(** [UndoController.get_value] *)
Definition get_value (self : UndoController) : Z := state self.

(** [UndoController.set_value]; the result carries the host actions
    triggered, in order. *)
Definition set_value (self : UndoController) (value : Q)
  : UndoController * list string :=
  let value := py_round value in
  if value =? state self then (self, [])
  else if value >? state self then
    (mkUndo (state self + 1), ["edit_redo"%string])
  else
    (mkUndo (state self - 1), ["edit_undo"%string]).

Section Preset.

(** Qt's image and pixmap types and [QPixmap.fromImage]. *)
Context {QImage QPixmap : Type} (fromImage : QImage -> QPixmap).

(** A preset resource of the host with its [image()]. *)
Record Preset : Type := mkPreset { image : QImage }.

(** [PresetController.get_label], on the catalog [Krita.get_presets()]
    returns. An exception other than [KeyError] is not caught. *)
Definition get_label (presets : gmap string Preset) (value : string)
  : PyExn + option QPixmap :=
  match dict_getitem presets value with
  | inr preset => inr (Some (fromImage (image preset)))
  | inl (KeyError _) => inr None
  | inl e => inl e
  end.

End Preset.

End Controllers.
Export Controllers.

(** ** templates/mouse_tracker_utils/axis_trackers.py *)
Module AxisTrackers.

(** A cursor position in pixels. *)
Definition Point : Type := Z * Z.

Inductive Axis : Type := Horizontal | Vertical.

(** The calls [DoubleAxisTracker] makes on its two slider handlers. *)
Inductive HandlerCall : Type :=
| HStart (axis : Axis)
| HStop (axis : Axis).

#[global] Instance Axis_eq_dec : EqDecision Axis.
Proof. solve_decision. Defined.

#[global] Instance HandlerCall_eq_dec : EqDecision HandlerCall.
Proof. solve_decision. Defined.

(** [MouseComparator]: the position stored when it is created. Its
    [cursor] is the host's live cursor object, so the properties below
    take the position the cursor has when they are read. *)
Record MouseComparator : Type := mkComparator {
  start_x : Z;
  start_y : Z
}.

Definition delta_x (c : MouseComparator) (cursor : Point) : Z :=
  Z.abs (start_x c - cursor.1).

Definition delta_y (c : MouseComparator) (cursor : Point) : Z :=
  Z.abs (start_y c - cursor.2).

Definition is_horizontal (c : MouseComparator) (cursor : Point) : bool :=
  delta_x c cursor >? delta_y c cursor.

(** [DoubleAxisTracker]: the comparator attribute (absent until the
    first press), whether the decision [QTimer] is active, and the calls
    made on the handlers so far. *)
Record DoubleAxisTracker : Type := mkTracker {
  comparator : option MouseComparator;
  timer_active : bool;
  calls : list HandlerCall
}.

(** State after [__init__]. *)
Definition new_tracker : DoubleAxisTracker := mkTracker None false [].

(** [on_key_press]: a new comparator at the current cursor position and
    [self._timer.start(50)]. The call to the base class runs the
    instructions of the action, which know nothing of the tracker. *)
Definition on_key_press (cursor : Point) (self : DoubleAxisTracker)
  : DoubleAxisTracker :=
  mkTracker (Some (mkComparator cursor.1 cursor.2)) true (calls self).

(** [_start_after_picking_slider], the slot of the timer's timeout. *)
Definition _start_after_picking_slider (cursor : Point)
  (self : DoubleAxisTracker) : PyExn + DoubleAxisTracker :=
  match comparator self with
  | None => inl (AttributeError "_comparator")
  | Some c =>
    if (delta_x c cursor <=? 10) && (delta_y c cursor <=? 10) then inr self
    else
      let picked := if is_horizontal c cursor then Horizontal else Vertical in
      inr (mkTracker (comparator self) false (calls self ++ [HStart picked]))
  end.

(** [on_every_key_release] *)
Definition on_every_key_release (self : DoubleAxisTracker)
  : DoubleAxisTracker :=
  mkTracker (comparator self) (timer_active self)
            (calls self ++ [HStop Horizontal; HStop Vertical]).

(** What the event loop delivers: key events of the action, a timeout of
    the decision timer, a move of the cursor. *)
Inductive Input : Type :=
| KeyPress
| KeyRelease
| Timeout
| CursorMove (p : Point).

Record System : Type := mkSystem {
  cursor : Point;
  tracker : DoubleAxisTracker
}.

(** One delivery. A [QTimer] started with an interval keeps emitting
    [timeout] until [stop()] is called; a timer that is not active emits
    none. *)
Definition deliver (i : Input) (s : System) : PyExn + System :=
  match i with
  | CursorMove p => inr (mkSystem p (tracker s))
  | KeyPress => inr (mkSystem (cursor s) (on_key_press (cursor s) (tracker s)))
  | KeyRelease => inr (mkSystem (cursor s) (on_every_key_release (tracker s)))
  | Timeout =>
    if timer_active (tracker s) then
      match _start_after_picking_slider (cursor s) (tracker s) with
      | inr t => inr (mkSystem (cursor s) t)
      | inl e => inl e
      end
    else inr s
  end.

Fixpoint run (inputs : list Input) (s : System) : PyExn + System :=
  match inputs with
  | [] => inr s
  | i :: rest =>
    match deliver i s with
    | inr s' => run rest s'
    | inl e => inl e
    end
  end.

(** The axes whose handler was started, in order. *)
Definition started (cs : list HandlerCall) : list Axis :=
  omap (fun c => match c with HStart a => Some a | HStop _ => None end) cs.

Definition is_key_press (i : Input) : bool :=
  match i with KeyPress => true | _ => false end.

(** Moves and timeouts of the decision phase in which no timeout sees a
    delta above 10 pixels, given the comparator and the cursor before
    them. *)
Fixpoint undecided (c : MouseComparator) (cur : Point) (inputs : list Input)
  : bool :=
  match inputs with
  | [] => true
  | CursorMove p :: rest => undecided c p rest
  | Timeout :: rest =>
    (delta_x c cur <=? 10) && (delta_y c cur <=? 10) && undecided c cur rest
  | _ :: _ => false
  end.

(** The cursor position after a list of inputs. *)
Definition cursor_after (cur : Point) (inputs : list Input) : Point :=
  foldl (fun cur i => match i with CursorMove p => p | _ => cur end)
        cur inputs.

End AxisTrackers.

(** ** templates/pie_menu_utils/pie_manager.py *)
Module PieMenu.

Import AxisTrackers.

Definition Qltb (x y : Q) : bool :=
  match Qcompare x y with Lt => true | _ => false end.

(** Modelled from the spec: [AnimationProgress], the activation progress
    of a label, which is not among the embedded files: a scalar in [0,1]
    with a per-tick step, up toward 1 and down toward 0, clamped to
    [0,1]; [reset] puts it back to rest. *)
Record AnimationProgress : Type := mkProgress {
  value : Q;
  speed : Q
}.

Definition up (p : AnimationProgress) : AnimationProgress :=
  mkProgress (Qmin (value p + speed p) 1) (speed p).

Definition down (p : AnimationProgress) : AnimationProgress :=
  mkProgress (Qmax (value p - speed p) 0) (speed p).

Definition reset (p : AnimationProgress) : AnimationProgress :=
  mkProgress 0 (speed p).

Section Pie.

(** Labels compare with [==]; [Angle] is what [angle_from_point] returns
    and [on_angle] consumes. *)
Context {Label Angle : Type} `{EqDecision Label}.

(** A label of the holder with its [activation_progress]. *)
Record LabelState : Type := mkLabelState {
  label : Label;
  activation_progress : AnimationProgress
}.

(** The interface of [CirclePoints] the manager uses. *)
Record CirclePoints : Type := mkCircle {
  distance : Point -> Q;
  angle_from_point : Point -> Angle
}.

(** The state of the [PieWidget] the manager and the animator share:
    [on_angle] is [label_holder.widget_holder.on_angle(angle).label]. *)
Record PieWidget : Type := mkWidget {
  visible : bool;
  deadzone : Q;
  active : option Label;
  label_holder : list LabelState;
  on_angle : Angle -> Label
}.

(** [PieManager] with its [LabelAnimator]: one widget referenced by
    both, the circle set by [start], and whether each of the two timers
    is running. *)
Record PieManager : Type := mkManager {
  pie_widget : PieWidget;
  circle : CirclePoints;
  timer_running : bool;
  animator_running : bool
}.

Definition with_widget (w : PieWidget) (m : PieManager) : PieManager :=
  mkManager w (circle m) (timer_running m) (animator_running m).

Definition with_labels (ls : list LabelState) (w : PieWidget) : PieWidget :=
  mkWidget (visible w) (deadzone w) (active w) ls (on_angle w).

(** [LabelAnimator.start] *)
Definition animator_start (m : PieManager) : PieManager :=
  mkManager (pie_widget m) (circle m) (timer_running m) true.

(** First loop of [LabelAnimator._update] on one label. *)
Definition step_label (act : option Label) (l : LabelState) : LabelState :=
  if bool_decide (act = Some (label l))
  then mkLabelState (label l) (up (activation_progress l))
  else mkLabelState (label l) (down (activation_progress l)).

(** [value not in (0, 1)], negated. *)
Definition at_bound (l : LabelState) : bool :=
  Qeq_bool (value (activation_progress l)) 0 ||
  Qeq_bool (value (activation_progress l)) 1.

(** [LabelAnimator._update]: every label is stepped, the widget is
    repainted, and the timer is stopped unless some label's value is
    neither 0 nor 1. *)
Definition _update (m : PieManager) : PieManager :=
  let w := pie_widget m in
  let w' := with_labels (step_label (active w) <$> label_holder w) w in
  mkManager w' (circle m) (timer_running m)
            (if forallb at_bound (label_holder w') then false
             else animator_running m).

(** A timeout of the animator's timer: delivered only while it runs. *)
Definition animator_tick (m : PieManager) : PieManager :=
  if animator_running m then _update m else m.

(** [PieManager.stop] *)
Definition stop (hide : bool) (m : PieManager) : PieManager :=
  let w := pie_widget m in
  let ls :=
    (fun l => mkLabelState (label l) (reset (activation_progress l)))
      <$> label_holder w in
  mkManager
    (mkWidget (if hide then false else visible w) (deadzone w) (active w)
              ls (on_angle w))
    (circle m) false (animator_running m).

(** [PieManager._set_active_label] *)
Definition _set_active_label (l : option Label) (m : PieManager)
  : PieManager :=
  if bool_decide (active (pie_widget m) ≠ l) then
    let w := pie_widget m in
    animator_start
      (with_widget
         (mkWidget (visible w) (deadzone w) l (label_holder w) (on_angle w))
         m)
  else m.

(** [PieManager._handle_cursor], on the position [QCursor().pos()]. *)
Definition _handle_cursor (cursor : Point) (m : PieManager) : PieManager :=
  if negb (visible (pie_widget m)) then stop true m
  else if Qltb (distance (circle m) cursor) (deadzone (pie_widget m)) then
    _set_active_label None m
  else
    let angle := angle_from_point (circle m) cursor in
    _set_active_label (Some (on_angle (pie_widget m) angle)) m.

(** The bound a label is driven to: 1 for the active one, 0 for the
    others. *)
Definition target (act : option Label) (l : LabelState) : Q :=
  if bool_decide (act = Some (label l)) then 1%Q else 0%Q.

(** The invariant of a progress: a positive step and a value in [0,1]. *)
Definition in_range (l : LabelState) : Prop :=
  (0 < speed (activation_progress l))%Q /\
  (0 <= value (activation_progress l))%Q /\
  (value (activation_progress l) <= 1)%Q.

(** A label rests when its value is 0 or 1. *)
Definition resting (l : LabelState) : Prop :=
  (value (activation_progress l) == 0)%Q \/
  (value (activation_progress l) == 1)%Q.

(** What a tick makes of one label of the holder: the same label, its
    progress moved by [up()] when it is the active label and by [down()]
    when it is not. *)
Definition stepped (act : option Label) (old new : LabelState) : Prop :=
  label new = label old /\
  activation_progress new
  = (if bool_decide (act = Some (label old))
     then up (activation_progress old)
     else down (activation_progress old)).

(** A label in the middle of its animation. *)
Definition animating (l : LabelState) : Prop :=
  (0 < value (activation_progress l))%Q /\
  (value (activation_progress l) < 1)%Q.

(** A number of ticks within which every label of the list comes to
    rest: a step [p/q] covers the whole range in [q] ticks. *)
Definition settle_ticks (ls : list LabelState) : nat :=
  foldr (fun l n => Nat.max (Pos.to_nat (Qden (speed (activation_progress l)))) n)
        1%nat ls.

(** [n] timeouts of the animator's timer in a row. *)
Definition animator_ticks (n : nat) (m : PieManager) : PieManager :=
  Nat.iter n animator_tick m.

End Pie.

Arguments LabelState : clear implicits.
Arguments CirclePoints : clear implicits.
Arguments PieWidget : clear implicits.
Arguments PieManager : clear implicits.

End PieMenu.

(** ** Concrete states the properties are exercised on *)
Module Scenario.

(** The FPS limit field with one registered callback. *)
Definition fps_field : FieldBase := register_callback FPS_LIMIT 1.

(** A store in which the user has set the FPS limit to 30. *)
Definition world_fps_30 : World :=
  mkWorld {[ ("ShortcutComposer"%string, "FPS limit"%string) := "30"%string ]}
          [].

(** A store in which nothing was ever written. *)
Definition world_empty : World := mkWorld ∅ [].

Import AxisTrackers PieMenu.

(** Modelled from the spec: [CirclePoints(center, radius)], which is not
    among the embedded files. The distance is the Euclidean one, its
    square root cut after six decimals; the angle of [cursor - center] is
    kept as that direction vector. *)
Definition compass_circle (center : Point) : CirclePoints Point :=
  mkCircle
    (fun p =>
       let dx := p.1 - center.1 in
       let dy := p.2 - center.2 in
       Qmake (Z.sqrt ((dx * dx + dy * dy) * 10 ^ 12)) (10 ^ 6))
    (fun p => (p.1 - center.1, p.2 - center.2)).

(** Four labels at the top, right, bottom and left of the pie (the y
    axis of the screen points down); each owns the quarter around it. *)
Definition compass_on_angle (d : Point) : string :=
  if Z.abs d.1 <=? Z.abs d.2
  then (if d.2 <? 0 then "brush"%string else "fill"%string)
  else (if 0 <? d.1 then "eraser"%string else "picker"%string).

Definition compass_labels : list (LabelState string) :=
  (fun name => mkLabelState name (mkProgress 0 (1 # 4)))
    <$> ["brush"; "eraser"; "fill"; "picker"]%string.

(** A pie centred at (100,100) with a deadzone of 20 pixels whose
    tracking loop runs, shown or hidden, with [act] active. *)
Definition compass_pie (shown : bool) (act : option string)
  : PieManager string Point :=
  mkManager (mkWidget shown 20 act compass_labels compass_on_angle)
            (compass_circle (100, 100)) true false.

(** The pie after the cursor went 50 pixels to the right of the centre:
    the label on the right became active and the animation was started. *)
Definition compass_pie_animating : PieManager string Point :=
  _handle_cursor (150, 100) (compass_pie true None).

End Scenario.

(** ** templates/pie_menu_utils/settings_gui/scroll_area.py *)
Module ScrollArea.

(** [GridPosition] *)
Record GridPosition : Type := mkGridPosition {
  gridrow : Z;
  gridcol : Z
}.

(** One call [addWidget(widget, row, col, rowspan, colspan)] made on the
    underlying [QGridLayout]. *)
Record AddWidget : Type := mkAddWidget {
  added_widget : nat;
  added_at : GridPosition;
  rowspan : Z;
  colspan : Z
}.

(** [OffsetGridLayout]: the widgets it holds, each known by the identity
    of the Qt object ([widget in self._widgets] compares objects that
    define no equality of their own), the number of columns, and the
    calls made on the grid so far. [_owner] takes no part in what is
    computed. *)
Record OffsetGridLayout : Type := mkLayout {
  _widgets : list nat;
  _max_columns : Z;
  grid_calls : list AddWidget
}.

(** [__init__] *)
Definition new_layout (max_columns : Z) : OffsetGridLayout :=
  mkLayout [] max_columns [].

(** [self._items_in_group], assigned once by [__init__]. It is odd, so
    the [divmod] of [_get_position] never divides by zero. *)
Definition _items_in_group (self : OffsetGridLayout) : Z :=
  2 * _max_columns self - 1.

(** [__len__] *)
Definition len (self : OffsetGridLayout) : Z :=
  Z.of_nat (length (_widgets self)).

(** [_get_position]; Python's [divmod] rounds the quotient down, as
    [Z.div] and [Z.modulo] do. *)
Definition _get_position (self : OffsetGridLayout) (index : Z)
  : GridPosition :=
  let group := index / _items_in_group self in
  let item := index mod _items_in_group self in
  if item <? _max_columns self then
    mkGridPosition (group * 4) (item * 2)
  else
    let col := item - _max_columns self in
    mkGridPosition (group * 4 + 2) (col * 2 + 1).

(** [list.insert(index, x)]: a negative index counts from the end, and
    an index past either end is brought back to that end. *)
Definition list_insert {A : Type} (index : Z) (x : A) (l : list A) : list A :=
  let n := Z.of_nat (length l) in
  let i := if index <? 0 then Z.max 0 (index + n) else Z.min index n in
  take (Z.to_nat i) l ++ x :: drop (Z.to_nat i) l.

(** [_internal_insert]; giving the widget its parent and showing it
    does not bear on the list. *)
Definition _internal_insert (index : Z) (widget : nat)
  (self : OffsetGridLayout) : OffsetGridLayout :=
  if bool_decide (widget ∈ _widgets self) then self
  else mkLayout (list_insert index widget (_widgets self))
                (_max_columns self) (grid_calls self).

(** The calls of one [_refresh]: every held widget is added at the
    position of its index, over 2x2 fields. *)
Definition refresh_calls (self : OffsetGridLayout) : list AddWidget :=
  imap (fun i widget =>
          mkAddWidget widget (_get_position self (Z.of_nat i)) 2 2)
       (_widgets self).

(** [_refresh] *)
Definition _refresh (self : OffsetGridLayout) : OffsetGridLayout :=
  mkLayout (_widgets self) (_max_columns self)
           (grid_calls self ++ refresh_calls self).

(** [insert] *)
Definition insert (index : Z) (widget : nat) (self : OffsetGridLayout)
  : OffsetGridLayout :=
  _refresh (_internal_insert index widget self).

(** [append] *)
Definition append (widget : nat) (self : OffsetGridLayout)
  : OffsetGridLayout :=
  _refresh (_internal_insert (len self) widget self).

(** [extend] *)
Definition extend (widgets : list nat) (self : OffsetGridLayout)
  : OffsetGridLayout :=
  _refresh
    (foldl (fun layout widget => _internal_insert (len layout) widget layout)
           self widgets).

(** The public operations of the layout, and a run of them. *)
Inductive LayoutOp : Type :=
| OpInsert (index : Z) (widget : nat)
| OpAppend (widget : nat)
| OpExtend (widgets : list nat).

Definition apply_op (self : OffsetGridLayout) (op : LayoutOp)
  : OffsetGridLayout :=
  match op with
  | OpInsert index widget => insert index widget self
  | OpAppend widget => append widget self
  | OpExtend widgets => extend widgets self
  end.

(** The fields of the grid a call covers. *)
Definition covers (call : AddWidget) (row col : Z) : Prop :=
  gridrow (added_at call) <= row < gridrow (added_at call) + rowspan call /\
  gridcol (added_at call) <= col < gridcol (added_at call) + colspan call.

End ScrollArea.

(** ** templates/pie_menu_utils/label_widget.py *)
Module LabelWidgets.

(** The two cursor shapes the widget sets. *)
Inductive CursorShape : Type := ArrowCursor | CrossCursor.

(** [e.buttons()]: the left button alone, or anything else. *)
Inductive MouseButtons : Type := LeftButton | OtherButtons.

(** The colours of the style the border is painted with. *)
Inductive StyleColor : Type :=
| active_color_dark
| active_color
| border_color.

#[global] Instance CursorShape_eq_dec : EqDecision CursorShape.
Proof. solve_decision. Defined.

Section Widget.

(** [Label] is the label class; [Display] is the state the
    instructions act on. *)
Context {Label Display : Type}.

(** [WidgetInstructions] *)
Record WidgetInstructions : Type := mkInstructions {
  on_enter : Label -> Display -> Display;
  on_leave : Label -> Display -> Display
}.

(** [LabelWidget]: its attributes, the cursor shape last set on it, and
    how often it was repainted and how many drags it started. *)
Record LabelWidget : Type := mkLabelWidget {
  label : Label;
  _is_unscaled : bool;
  _draggable : bool;
  _enabled : bool;
  _hovered : bool;
  cursor_shape : CursorShape;
  _instructions : list WidgetInstructions;
  repaints : nat;
  drags : nat
}.

(** The setter of [draggable] *)
Definition set_draggable (value : bool) (self : LabelWidget) : LabelWidget :=
  mkLabelWidget (label self) (_is_unscaled self) value (_enabled self)
                (_hovered self)
                (if value then ArrowCursor else CrossCursor)
                (_instructions self) (repaints self) (drags self).

(** [repaint()] *)
Definition repaint (self : LabelWidget) : LabelWidget :=
  mkLabelWidget (label self) (_is_unscaled self) (_draggable self)
                (_enabled self) (_hovered self) (cursor_shape self)
                (_instructions self) (S (repaints self)) (drags self).

(** [__init__]: [self.draggable = self._draggable = True] goes through
    the setter. *)
Definition new_widget (label : Label) (is_unscaled : bool) : LabelWidget :=
  set_draggable true
    (mkLabelWidget label is_unscaled true true false ArrowCursor [] 0 0).

(** [add_instruction] *)
Definition add_instruction (instruction : WidgetInstructions)
  (self : LabelWidget) : LabelWidget :=
  mkLabelWidget (label self) (_is_unscaled self) (_draggable self)
                (_enabled self) (_hovered self) (cursor_shape self)
                (_instructions self ++ [instruction])
                (repaints self) (drags self).

(** The setter of [enabled] *)
Definition set_enabled (value : bool) (self : LabelWidget) : LabelWidget :=
  let self := mkLabelWidget (label self) (_is_unscaled self) (_draggable self)
                            value (_hovered self) (cursor_shape self)
                            (_instructions self) (repaints self) (drags self)
  in
  repaint (if negb value then set_draggable false self else self).

(** [mousePressEvent]: a drag is started and run unless the buttons are
    not the left one alone or the widget is not draggable. *)
Definition mousePressEvent (buttons : MouseButtons) (self : LabelWidget)
  : LabelWidget :=
  match buttons, _draggable self with
  | LeftButton, true =>
    mkLabelWidget (label self) (_is_unscaled self) (_draggable self)
                  (_enabled self) (_hovered self) (cursor_shape self)
                  (_instructions self) (repaints self) (S (drags self))
  | _, _ => self
  end.

Definition with_hovered (value : bool) (self : LabelWidget) : LabelWidget :=
  mkLabelWidget (label self) (_is_unscaled self) (_draggable self)
                (_enabled self) value (cursor_shape self)
                (_instructions self) (repaints self) (drags self).

(** [enterEvent] *)
Definition enterEvent (self : LabelWidget) (d : Display)
  : LabelWidget * Display :=
  (repaint (with_hovered true self),
   foldl (fun d instruction => on_enter instruction (label self) d)
         d (_instructions self)).

(** [leaveEvent] *)
Definition leaveEvent (self : LabelWidget) (d : Display)
  : LabelWidget * Display :=
  (repaint (with_hovered false self),
   foldl (fun d instruction => on_leave instruction (label self) d)
         d (_instructions self)).

(** [_border_color] *)
Definition _border_color (self : LabelWidget) : StyleColor :=
  if negb (_enabled self) then active_color_dark
  else if _hovered self && _draggable self then active_color
  else border_color.

(** [icon_radius], on the two radii of the style. *)
Definition icon_radius (unscaled_icon_radius style_icon_radius : Z)
  (self : LabelWidget) : Z :=
  if _is_unscaled self then unscaled_icon_radius else style_icon_radius.

(** What can happen to a widget once it exists. *)
Inductive WidgetEvent : Type :=
| SetDraggable (value : bool)
| SetEnabled (value : bool)
| AddInstruction (instruction : WidgetInstructions)
| MousePress (buttons : MouseButtons)
| Enter
| Leave.

Definition handle (s : LabelWidget * Display) (ev : WidgetEvent)
  : LabelWidget * Display :=
  match ev with
  | SetDraggable value => (set_draggable value s.1, s.2)
  | SetEnabled value => (set_enabled value s.1, s.2)
  | AddInstruction instruction => (add_instruction instruction s.1, s.2)
  | MousePress buttons => (mousePressEvent buttons s.1, s.2)
  | Enter => enterEvent s.1 s.2
  | Leave => leaveEvent s.1 s.2
  end.

Definition makes_draggable (ev : WidgetEvent) : bool :=
  match ev with SetDraggable true => true | _ => false end.

(** The cursor shows whether the widget can be dragged. *)
Definition cursor_agrees (self : LabelWidget) : Prop :=
  cursor_shape self = ArrowCursor <-> _draggable self = true.

End Widget.

Arguments WidgetInstructions : clear implicits.
Arguments LabelWidget : clear implicits.
Arguments WidgetEvent : clear implicits.

End LabelWidgets.

(** ** [ChildInstruction] and [ScrollArea] of scroll_area.py *)
Module ScrollAreaChildren.
Import LabelWidgets ScrollArea.

Section Children.

(** [str(label.pretty_name)] of the label class. *)
Context {Label : Type} (pretty_name : Label -> string).

(** [ChildInstruction]: the text of the [QLabel] it was given is the
    display it acts on. *)
Definition ChildInstruction : WidgetInstructions Label string :=
  mkInstructions (fun label _ => pretty_name label)
                 (fun _ _ => EmptyString).

(** [ScrollArea._create_children]: one widget per label, built by
    [create_label_widget] with [is_unscaled=True] (the subclass it picks
    only decides how the label is painted), made draggable and given a
    [ChildInstruction] on the area's display. *)
Definition _create_children (labels : list Label)
  : list (LabelWidget Label string) :=
  (fun label =>
     add_instruction ChildInstruction
       (set_draggable true (new_widget label true)))
    <$> labels.

(** The layout after [ScrollArea.__init__]: the children, the [i]-th
    known as object [i], are handed to [extend] of a new layout. *)
Definition scroll_area_layout (labels : list Label) (columns : Z)
  : OffsetGridLayout :=
  extend (seq 0 (length (_create_children labels))) (new_layout columns).

End Children.

End ScrollAreaChildren.

(** ** core_components/controllers/node_controllers.py *)
Module NodeControllers.

(** A member of the [BlendingMode] enum, by its name. *)
Definition BlendingMode : Type := string.

(** The attributes of the active node the controllers access; a write
    to an attribute is what the next read returns. *)
Record Node : Type := mkNode {
  opacity : Z;
  blending_mode : BlendingMode;
  visible : bool
}.

(** [NodeBasedController] after [refresh()]: the active node, and how
    often [active_document.refresh()] was called. *)
Record NodeBasedController : Type := mkNodeController {
  active_node : Node;
  document_refreshes : nat
}.

Module LayerOpacityController.

Definition get_value (self : NodeBasedController) : Z :=
  opacity (active_node self).

Definition set_value (value : Z) (self : NodeBasedController)
  : NodeBasedController :=
  if bool_decide (opacity (active_node self) ≠ value) then
    mkNodeController
      (mkNode value (blending_mode (active_node self))
              (visible (active_node self)))
      (S (document_refreshes self))
  else self.

(** [get_pretty_name]: the value followed by a percent sign. *)
Definition get_pretty_name (value : Z) : string := pretty value +:+ "%".

End LayerOpacityController.

Module LayerBlendingModeController.

Definition get_value (self : NodeBasedController) : BlendingMode :=
  blending_mode (active_node self).

Definition set_value (value : BlendingMode) (self : NodeBasedController)
  : NodeBasedController :=
  if bool_decide (blending_mode (active_node self) ≠ value) then
    mkNodeController
      (mkNode (opacity (active_node self)) value
              (visible (active_node self)))
      (S (document_refreshes self))
  else self.

End LayerBlendingModeController.

Module LayerVisibilityController.

Definition get_value (self : NodeBasedController) : bool :=
  visible (active_node self).

Definition set_value (value : bool) (self : NodeBasedController)
  : NodeBasedController :=
  if bool_decide (visible (active_node self) ≠ value) then
    mkNodeController
      (mkNode (opacity (active_node self))
              (blending_mode (active_node self)) value)
      (S (document_refreshes self))
  else self.

End LayerVisibilityController.

End NodeControllers.

(** ** composer_library/shortcut_templates/layer_picker.py *)
Module LayerPicker.

Section Strategies.

(** Nodes of the host compare with [==]; [is_visible] is the method of
    the node wrapper. *)
Context {Node : Type} `{EqDecision Node} (is_visible : Node -> bool).

(** What a strategy reads of a document. *)
Record Document : Type := mkDocument {
  all_nodes : list Node;
  current_node : Node
}.

(** [PickStrategy.ALL] *)
Definition pick_all (document : Document) : list Node :=
  all_nodes document.

(** [PickStrategy.VISIBLE] *)
Definition pick_visible (document : Document) : list Node :=
  let nodes := all_nodes document in
  let current := current_node document in
  List.filter (fun node => is_visible node || bool_decide (node = current))
              nodes.

End Strategies.

Arguments Document : clear implicits.

End LayerPicker.

(** ** Repeated calls of the controllers and of the polling loop *)
Module Runs.

(** [n] calls of [UndoController.set_value] with one value, as a slider
    makes them; the host actions are collected in order. *)
Fixpoint set_value_times (n : nat) (self : UndoController) (value : Q)
  : UndoController * list string :=
  match n with
  | O => (self, [])
  | S k =>
    let first := set_value self value in
    let later := set_value_times k first.1 value in
    (later.1, first.2 ++ later.2)
  end.

Import AxisTrackers PieMenu.

Section Pie.
Context {Label Angle : Type} `{EqDecision Label}.

(** A timeout of the manager's timer with the cursor at [cursor]:
    [_handle_cursor] runs only while the timer does. *)
Definition poll (m : PieManager Label Angle) (cursor : Point)
  : PieManager Label Angle :=
  if timer_running m then _handle_cursor cursor m else m.

End Pie.

End Runs.

(* ================================================================== *)
(** * Part II. Properties                                              *)
(* ================================================================== *)

(** ** Rounding *)
Module PyFacts.

Lemma py_round_floor_or_next (x : Q) :
  py_round x = Qfloor x \/ py_round x = Qfloor x + 1.
Proof.
  unfold py_round. simpl.
  destruct (Qcompare _ _); [destruct (Z.even _) | |]; auto.
Qed.

Lemma Qfloor_nonneg (x : Q) : (0 <= x)%Q -> 0 <= Qfloor x.
Proof. intros Hx. change 0 with (Qfloor 0). by apply Qfloor_resp_le. Qed.

Lemma Qfloor_zero (x : Q) : (0 <= x)%Q -> (x < 1)%Q -> Qfloor x = 0.
Proof.
  intros H0 H1.
  pose proof (Qfloor_nonneg x H0) as Hge.
  assert (Hlt : Qfloor x < 1).
  { apply Z.lt_nge. intros Hle.
    assert (inject_Z 1 <= inject_Z (Qfloor x))%Q by (rewrite <- Zle_Qle; lia).
    pose proof (Qfloor_le x). change (inject_Z 1) with 1%Q in *. lra. }
  lia.
Qed.

(** Above one half, the rounded value is at least 1. *)
Lemma py_round_above_half (x : Q) : (1 # 2 < x)%Q -> 1 <= py_round x.
Proof.
  intros Hx.
  assert (Hf : 0 <= Qfloor x) by (apply Qfloor_nonneg; lra).
  destruct (decide (Qfloor x = 0)) as [E|E].
  - unfold py_round. simpl. rewrite E.
    assert (Hc : (x - inject_Z 0 ?= 1 # 2)%Q = Gt).
    { apply Qgt_alt. change (inject_Z 0) with 0%Q. lra. }
    rewrite Hc. lia.
  - destruct (py_round_floor_or_next x); lia.
Qed.

(** From 0 to one half included, the rounded value is 0. *)
Lemma py_round_upto_half (x : Q) :
  (0 <= x)%Q -> (x <= 1 # 2)%Q -> py_round x = 0.
Proof.
  intros H0 H1.
  assert (E : Qfloor x = 0) by (apply Qfloor_zero; lra).
  unfold py_round. simpl. rewrite E.
  change (inject_Z 0) with 0%Q.
  destruct (Qcompare (x - 0) (1 # 2)) eqn:Hc; try reflexivity.
  apply Qgt_alt in Hc. lra.
Qed.

(** Below 0, the rounded value is at most 0. *)
Lemma py_round_negative (x : Q) : (x < 0)%Q -> py_round x <= 0.
Proof.
  intros Hx.
  assert (Hf : Qfloor x < 0).
  { apply Z.lt_nge. intros Hge.
    assert (inject_Z 0 <= inject_Z (Qfloor x))%Q by (rewrite <- Zle_Qle; lia).
    pose proof (Qfloor_le x). change (inject_Z 0) with 0%Q in *. lra. }
  destruct (py_round_floor_or_next x); lia.
Qed.

Lemma truediv_1000_pos (fps : Z) : 0 < fps -> (0 < py_truediv 1000 fps)%Q.
Proof.
  intros H. unfold py_truediv. apply Qlt_shift_div_l.
  - change 0%Q with (inject_Z 0). rewrite <- Zlt_Qlt. lia.
  - rewrite Qmult_0_l. reflexivity.
Qed.

Lemma truediv_1000_half (fps : Z) :
  0 < fps -> ((1 # 2 < py_truediv 1000 fps)%Q <-> fps < 2000).
Proof.
  intros H. unfold py_truediv.
  assert (Hp : (0 < inject_Z fps)%Q).
  { change 0%Q with (inject_Z 0). rewrite <- Zlt_Qlt. lia. }
  split.
  - intros Hlt.
    assert (Hm : ((1 # 2) * inject_Z fps < inject_Z 1000)%Q).
    { apply Qlt_le_trans with
        ((inject_Z 1000 / inject_Z fps) * inject_Z fps)%Q.
      - apply Qmult_lt_compat_r; assumption.
      - rewrite Qmult_comm, Qmult_div_r; [apply Qle_refl|].
        intros E. rewrite E in Hp. by apply Qlt_irrefl in Hp. }
    assert (Hz : (inject_Z fps < inject_Z 2000)%Q).
    { change (inject_Z 2000) with (2 * inject_Z 1000)%Q. lra. }
    by rewrite <- Zlt_Qlt in Hz.
  - intros Hlt. apply Qlt_shift_div_l; [assumption|].
    assert (Hz : (inject_Z fps < inject_Z 2000)%Q) by (by rewrite <- Zlt_Qlt).
    change (inject_Z 2000) with (2 * inject_Z 1000)%Q in Hz. lra.
Qed.

End PyFacts.

(** ** The sleep time of the timers *)
Module SleepTimeSpec.
Import PyFacts.

(** C7, as stated, fails: an FPS limit of 5000 (or of exactly 2000, where
    1000/fps is the tie 0.5 and rounds to the even 0) gives an interval
    of 0 ms, below 1. *)
Lemma get_sleep_time_below_one_ms :
  get_sleep_time 5000 = 0 /\ get_sleep_time 2000 = 0 /\
  ~ (1 <= get_sleep_time 5000).
Proof.
  split; [reflexivity|]. split; [reflexivity|].
  intros H. vm_compute in H. by apply H.
Qed.

(** C7, amended: [get_sleep_time] returns 1 for an FPS limit of 0 and
    round(1000/fps), ties to even, for any other; the result is at
    least 1 ms exactly for the limits from 0 to 1999. *)
Theorem get_sleep_time_spec (fps : Z) :
  (fps = 0 -> get_sleep_time fps = 1) /\
  (fps <> 0 -> get_sleep_time fps = py_round (py_truediv 1000 fps)) /\
  (1 <= get_sleep_time fps <-> 0 <= fps < 2000).
Proof.
  split; [by intros -> |]. split.
  - intros Hne. unfold get_sleep_time, truthy.
    by destruct (Z.eqb_spec fps 0).
  - unfold get_sleep_time, truthy.
    destruct (Z.eqb_spec fps 0) as [->|Hne]; simpl; [lia|].
    destruct (Z.lt_trichotomy fps 0) as [Hneg|[?|Hpos]]; [|lia|].
    + assert (Hq : (py_truediv 1000 fps < 0)%Q).
      { unfold py_truediv.
        assert (Hp : (0 < inject_Z (- fps))%Q).
        { change 0%Q with (inject_Z 0). rewrite <- Zlt_Qlt. lia. }
        rewrite inject_Z_opp in Hp.
        assert (Hd : (0 < inject_Z 1000 / - inject_Z fps)%Q).
        { apply Qlt_shift_div_l; [assumption|]. by rewrite Qmult_0_l. }
        assert (E : (inject_Z 1000 / - inject_Z fps ==
                     - (inject_Z 1000 / inject_Z fps))%Q).
        { field. intros E. rewrite E in Hp. by apply Qlt_irrefl in Hp. }
        rewrite E in Hd. lra. }
      pose proof (py_round_negative _ Hq). lia.
    + pose proof (truediv_1000_pos fps Hpos) as Hq.
      pose proof (truediv_1000_half fps Hpos) as Hh.
      split.
      * intros Hge. split; [lia|]. apply Hh.
        destruct (Qlt_le_dec (1 # 2) (py_truediv 1000 fps)) as [|Hle];
          [assumption|].
        rewrite (py_round_upto_half _ (Qlt_le_weak _ _ Hq) Hle) in Hge. lia.
      * intros [_ Hlt]. apply py_round_above_half, Hh, Hlt.
Qed.

End SleepTimeSpec.

(** ** The undo and preset controllers *)
Module ControllerSpec.

(** C10: a call of [set_value] moves the remembered position by at most
    one: not at all, with no host action, when round(v) is the position;
    otherwise by exactly one toward round(v) with exactly one redo (up) or
    undo (down), however far round(v) is. *)
Theorem set_value_moves_by_one (self : UndoController) (v : Q) :
  let self' := (set_value self v).1 in
  let actions := (set_value self v).2 in
  Z.abs (state self' - state self) <= 1 /\
  (py_round v = state self -> self' = self /\ actions = []) /\
  (state self < py_round v ->
   state self' = state self + 1 /\ actions = ["edit_redo"%string]) /\
  (py_round v < state self ->
   state self' = state self - 1 /\ actions = ["edit_undo"%string]).
Proof.
  unfold set_value. simpl.
  destruct (Z.eqb_spec (py_round v) (state self)) as [E|E]; simpl.
  - repeat split; try lia; done.
  - destruct (Z.gtb_spec (py_round v) (state self)); simpl;
      repeat split; try lia; try done.
Qed.

(** Calls repeated with one target reach it: [n] calls suffice when the
    position is [n] steps away. *)
Lemma set_value_reaches_target (n : nat) (self : UndoController) (v : Q) :
  Z.abs (py_round v - state self) <= Z.of_nat n ->
  state (Nat.iter n (fun c => (set_value c v).1) self) = py_round v.
Proof.
  revert self. induction n as [|n IH]; intros self Hd.
  - simpl. lia.
  - rewrite Nat.iter_succ_r. apply IH.
    unfold set_value. simpl.
    destruct (Z.eqb_spec (py_round v) (state self)); simpl; [lia|].
    destruct (Z.gtb_spec (py_round v) (state self)); simpl; lia.
Qed.

Section Preset.
Context {QImage QPixmap : Type} (fromImage : QImage -> QPixmap).

(** C9: [get_label] returns None, and raises nothing, for a name that is
    not in the catalog, and the pixmap made of the preset's image for a
    name that is. *)
Theorem get_label_absent_or_pixmap
  (presets : gmap string (@Preset QImage)) (value : string) :
  (presets !! value = None ->
   get_label fromImage presets value = inr None) /\
  (forall preset, presets !! value = Some preset ->
   get_label fromImage presets value
   = inr (Some (fromImage (image preset)))).
Proof.
  unfold get_label, dict_getitem. split.
  - by intros ->.
  - by intros preset ->.
Qed.

End Preset.

End ControllerSpec.

(** ** Configuration fields *)
Module FieldSpec.
Import Scenario.

Lemma issubclass_refl (t : PyType) : issubclass t t = true.
Proof. unfold issubclass. by rewrite bool_decide_eq_true_2. Qed.

Lemma py_eq_refl (v : PyVal) : py_eq v v = true.
Proof.
  destruct v; unfold py_eq; cbn [as_number];
    first [ apply Qeq_bool_refl
          | by rewrite !bool_decide_eq_true_2 by done ].
Qed.

Lemma writes_to_app (k : Key) (a b : list Event) :
  writes_to k (a ++ b) = writes_to k a ++ writes_to k b.
Proof. apply omap_app. Qed.

Lemma writes_to_callbacks (k : Key) (cbs : list nat) :
  writes_to k (EvCallback <$> cbs) = [].
Proof. induction cbs; done. Qed.

Lemma run_callbacks_run (cbs : list nat) (w : World) :
  run_callbacks cbs w
  = (inr tt, mkWorld (store w) (trace w ++ (EvCallback <$> cbs))).
Proof.
  revert w. induction cbs as [|c cbs IH]; intros [st tr]; simpl.
  - unfold ret. by rewrite app_nil_r.
  - unfold bind, emit. simpl. rewrite IH. simpl. by rewrite <- app_assoc.
Qed.

(** The boolean [_is_write_redundant] returns, and the reads it makes. *)
Lemma is_write_redundant_run (f : FieldBase) (v : PyVal) (w : World) :
  exists (b : bool) (reads : list Event),
    _is_write_redundant f v w
    = (inr b, mkWorld (store w) (trace w ++ reads)) /\
    mutations reads = [] /\
    (forall k, writes_to k reads = []) /\
    (b = true <-> redundant f (store w) v).
Proof.
  unfold _is_write_redundant, bind, read, read_setting, ret, redundant, key.
  simpl. destruct (py_eq (field_read f (store w)) v) eqn:E.
  - exists true, [EvRead (config_group f) (name f)].
    repeat split; auto.
  - exists (bool_decide (store w !! (config_group f, name f) = None)
            && py_eq v (default f)),
           [EvRead (config_group f) (name f);
            EvReadSetting (config_group f) (name f)].
    simpl. rewrite <- app_assoc. repeat split; auto.
    + intros Hb. apply andb_true_iff in Hb as [H1 H2].
      apply bool_decide_eq_true in H1. by right.
    + intros [?|[H1 H2]]; [congruence|].
      apply andb_true_iff. split; [by apply bool_decide_eq_true|done].
Qed.

(** C2: on a value of the field's type, [write] leaves the store as it
    is, writes nothing and runs no callback when the write is redundant
    (the value read equals the new one, or nothing is stored and the new
    value equals the default); otherwise it performs exactly one store
    write and then runs every registered callback, in order. Reads are
    the only other host calls it makes. *)
Theorem write_effects (f : FieldBase) (v : PyVal) (w : World) :
  isinstance v (type_of (default f)) = true ->
  exists reads : list Event,
    mutations reads = [] /\
    (redundant f (store w) v ->
     write f v w = (inr tt, mkWorld (store w) (trace w ++ reads))) /\
    (~ redundant f (store w) v ->
     write f v w
     = (inr tt,
        mkWorld (<[key f := field_to_string f v]> (store w))
                (trace w ++ reads ++
                 EvWriteSetting (config_group f) (name f)
                                (field_to_string f v)
                 :: (EvCallback <$> on_change_callbacks f)))).
Proof.
  intros Hty.
  destruct (is_write_redundant_run f v w) as (b & reads & Hrun & Hm & _ & Hb).
  exists reads. split; [done|].
  unfold write. rewrite Hty. simpl. unfold bind. rewrite Hrun.
  split.
  - intros Hr. apply Hb in Hr. by rewrite Hr.
  - intros Hn. destruct b; [by destruct Hn; apply Hb|].
    unfold write_setting. simpl. rewrite run_callbacks_run. simpl.
    by rewrite <- !app_assoc.
Qed.

Lemma write_effects_witness :
  exists reads : list Event,
    mutations reads = [] /\
    (redundant fps_field (store world_fps_30) (VInt 60) ->
     write fps_field (VInt 60) world_fps_30
     = (inr tt, mkWorld (store world_fps_30) (trace world_fps_30 ++ reads))) /\
    (~ redundant fps_field (store world_fps_30) (VInt 60) ->
     write fps_field (VInt 60) world_fps_30
     = (inr tt,
        mkWorld (<[key fps_field := field_to_string fps_field (VInt 60)]>
                   (store world_fps_30))
                (trace world_fps_30 ++ reads ++
                 EvWriteSetting (config_group fps_field) (name fps_field)
                                (field_to_string fps_field (VInt 60))
                 :: (EvCallback <$> on_change_callbacks fps_field)))).
Proof. exact (write_effects fps_field (VInt 60) world_fps_30 eq_refl). Defined.

(** The calls of one effective write, in order: the two reads of the
    redundancy check, the store write, the callback. *)
Example write_fps_60_trace :
  write fps_field (VInt 60) world_fps_30
  = (inr tt,
     mkWorld
       {[ ("ShortcutComposer"%string, "FPS limit"%string) := "60"%string ]}
       [EvRead "ShortcutComposer" "FPS limit";
        EvReadSetting "ShortcutComposer" "FPS limit";
        EvWriteSetting "ShortcutComposer" "FPS limit" "60";
        EvCallback 1]).
Proof. by vm_compute. Qed.

(** Writing the stored value again, or the default when nothing is
    stored, only reads. *)
Example write_redundant_traces :
  write fps_field (VInt 30) world_fps_30
  = (inr tt, mkWorld (store world_fps_30)
                     [EvRead "ShortcutComposer" "FPS limit"]) /\
  write fps_field (VInt 60) world_empty
  = (inr tt, mkWorld ∅ [EvRead "ShortcutComposer" "FPS limit"]).
Proof. by vm_compute. Qed.

(** C6: [write] with a value that is not an instance of the type of the
    field's default raises [TypeError] at once: the world, store and
    trace of host calls alike, is the one before the call. *)
Theorem write_type_mismatch (f : FieldBase) (v : PyVal) (w : World) :
  isinstance v (type_of (default f)) = false ->
  write f v w = (inl (TypeError v (type_of (default f))), w).
Proof. intros Hty. unfold write. by rewrite Hty. Qed.

Lemma write_type_mismatch_witness :
  write FPS_LIMIT (VFloat 60) world_fps_30
  = (inl (TypeError (VFloat 60) TInt), world_fps_30).
Proof. exact (write_type_mismatch FPS_LIMIT (VFloat 60) world_fps_30 eq_refl). Defined.

(** ** The sweep of [Config.reset_defaults] *)

Lemma redundant_default_iff (f : FieldBase) (st : gmap Key string) :
  redundant f st (default f) <-> ~ stale f st.
Proof.
  unfold redundant, stale. rewrite py_eq_refl. split.
  - intros [Hr|[Hn _]] [Hs Hne]; [congruence|].
    rewrite Hn in Hs. by destruct Hs.
  - intros Hn. destruct (py_eq (field_read f st) (default f)) eqn:E;
      [by left|]. right. split; [|done].
    destruct (st !! key f) eqn:El; [|done].
    destruct Hn. split; [by eexists | done].
Qed.

Lemma classic_stale (f : FieldBase) (st : gmap Key string) :
  stale f st \/ ~ stale f st.
Proof.
  unfold stale. destruct (st !! key f) eqn:E.
  - destruct (py_eq (field_read f st) (default f)).
    + right. by intros [_ ?].
    + left. split; [by eexists|done].
  - right. intros [Hs _]. by destruct Hs.
Qed.

Lemma stale_local (f : FieldBase) (st st' : gmap Key string) :
  reads_own_key f -> st !! key f = st' !! key f -> stale f st -> stale f st'.
Proof.
  intros Hloc Hk [Hs Hne]. unfold stale.
  by rewrite <- Hk, <- (Hloc st st' Hk).
Qed.

(** One [reset_default]: a stale field gets its default written, any
    other is left alone. *)
Lemma reset_default_run (f : FieldBase) (w : World) :
  exists w',
    reset_default f w = (inr tt, w') /\
    (stale f (store w) ->
     store w' = <[key f := field_to_string f (default f)]> (store w) /\
     forall k, writes_to k (trace w')
               = writes_to k (trace w) ++
                 (if bool_decide ((config_group f, name f) = k)
                  then [field_to_string f (default f)] else [])) /\
    (~ stale f (store w) ->
     store w' = store w /\
     forall k, writes_to k (trace w') = writes_to k (trace w)).
Proof.
  destruct (is_write_redundant_run f (default f) w)
    as (b & reads & Hrun & _ & Hw & Hb).
  rewrite redundant_default_iff in Hb.
  unfold reset_default, write, isinstance.
  rewrite issubclass_refl. simpl. unfold bind. rewrite Hrun.
  destruct b.
  - eexists. split; [reflexivity|]. simpl. split.
    + intros Hs. by destruct (proj1 Hb eq_refl).
    + intros _. split; [done|]. intros k.
      by rewrite writes_to_app, Hw, app_nil_r.
  - unfold write_setting. simpl. rewrite run_callbacks_run. simpl.
    eexists. split; [reflexivity|]. simpl. split.
    + intros _. split; [done|]. intros k.
      rewrite !writes_to_app, Hw, app_nil_r, writes_to_callbacks. simpl.
      rewrite app_nil_r. by destruct (bool_decide _).
    + intros Hn. apply Hb in Hn. discriminate.
Qed.

Lemma reset_defaults_run (cls : list (string * ClassAttr)) :
  forall w : World,
    NoDup (key <$> fields_of cls) ->
    Forall reads_own_key (fields_of cls) ->
    exists w',
      reset_defaults cls w = (inr tt, w') /\
      (forall k, k ∉ key <$> fields_of cls ->
         store w' !! k = store w !! k /\
         writes_to k (trace w') = writes_to k (trace w)) /\
      (forall f, f ∈ fields_of cls ->
         (stale f (store w) ->
          store w' !! key f = Some (field_to_string f (default f)) /\
          writes_to (key f) (trace w')
          = writes_to (key f) (trace w) ++ [field_to_string f (default f)]) /\
         (~ stale f (store w) ->
          store w' !! key f = store w !! key f /\
          writes_to (key f) (trace w') = writes_to (key f) (trace w))).
Proof.
  induction cls as [|[attr [f|]] cls IH]; intros w Hnd Hloc.
  - exists w. split; [done|]. split; [done|].
    intros f Hf. by apply elem_of_nil in Hf.
  - change (fields_of ((attr, AttrField f) :: cls))
      with (f :: fields_of cls) in *.
    rewrite fmap_cons in Hnd. apply NoDup_cons in Hnd as [Hfresh Hnd].
    apply Forall_cons in Hloc as [Hf Hloc].
    destruct (reset_default_run f w) as (w1 & Hrun1 & Hst & Hns).
    destruct (IH w1 Hnd Hloc) as (w' & Hrun & Hout & Hin).
    exists w'. split.
    { simpl. unfold bind. by rewrite Hrun1. }
    assert (Hother : forall k, k ≠ key f ->
              store w1 !! k = store w !! k /\
              writes_to k (trace w1) = writes_to k (trace w)).
    { intros k Hk. destruct (classic_stale f (store w)) as [Hs|Hs].
      - destruct (Hst Hs) as [-> Hw]. split.
        + by rewrite lookup_insert_ne.
        + rewrite Hw, bool_decide_eq_false_2, app_nil_r; [done|].
          intros E. by apply Hk.
      - destruct (Hns Hs) as [-> Hw]. by rewrite Hw. }
    split.
    + intros k Hk. rewrite fmap_cons, not_elem_of_cons in Hk.
      destruct Hk as [Hk1 Hk2].
      destruct (Hout k Hk2) as [-> ->]. by apply Hother.
    + intros g Hg. apply elem_of_cons in Hg as [->|Hg].
      * destruct (Hout (key f) Hfresh) as [Hs1 Hw1]. split.
        -- intros Hs. destruct (Hst Hs) as [E Hw].
           rewrite Hs1, Hw1, E, lookup_insert_eq, Hw.
           by rewrite bool_decide_eq_true_2.
        -- intros Hs. destruct (Hns Hs) as [E Hw].
           by rewrite Hs1, Hw1, E, Hw.
      * assert (Hne : key g ≠ key f).
        { intros E. apply Hfresh. rewrite <- E.
          by apply list_elem_of_fmap_2. }
        destruct (Hother (key g) Hne) as [Hs1 Hw1].
        assert (Hg_loc : reads_own_key g).
        { by eapply Forall_forall in Hloc. }
        destruct (Hin g Hg) as [Hyes Hno]. split.
        -- intros Hs.
           destruct (Hyes (stale_local g _ _ Hg_loc (eq_sym Hs1) Hs))
             as [-> ->].
           by rewrite Hw1.
        -- intros Hs.
           destruct Hno as [-> ->]; [|by rewrite Hs1, Hw1].
           intros Hs'. apply Hs.
           by apply (stale_local g _ _ Hg_loc Hs1).
  - apply (IH w Hnd Hloc).
Qed.

Lemma ImmutableField_reads_own_key (n : string) (d : PyVal) :
  reads_own_key (ImmutableField n d).
Proof.
  unfold reads_own_key, ImmutableField, key.
  cbv zeta. cbn [field_read config_group name].
  intros st st' Hk. unfold Key in *. by rewrite Hk.
Qed.

Lemma Config_keys_distinct : NoDup (key <$> fields_of Config).
Proof. by apply (bool_decide_unpack _). Qed.

Lemma Config_fields_read_own_key : Forall reads_own_key (fields_of Config).
Proof. repeat constructor; apply ImmutableField_reads_own_key. Qed.

(** C3, as stated, fails: on a store in which nothing was written, the
    sweep performs no store write at all, although [Config] holds eight
    fields, the FPS limit among them. *)
Lemma reset_defaults_skips_unset_fields :
  length (fields_of Config) = 8%nat /\
  FPS_LIMIT ∈ fields_of Config /\
  (reset_defaults Config world_empty).1 = inr tt /\
  mutations (trace (reset_defaults Config world_empty).2) = [] /\
  writes_to (key FPS_LIMIT) (trace (reset_defaults Config world_empty).2) = [].
Proof.
  split; [reflexivity|]. split.
  - simpl. rewrite !elem_of_cons. auto.
  - by vm_compute.
Qed.

(** C3, amended: [reset_defaults] visits every field held by the class
    and raises nothing; a field that is stale (an entry is stored for it
    and the value read differs from the default) has its default written
    to the store, once; for any other field the write is redundant and
    the sweep neither writes nor changes its entry. The fields have
    distinct keys and each reads its own entry. *)
Theorem reset_defaults_sweep (cls : list (string * ClassAttr)) (w : World) :
  NoDup (key <$> fields_of cls) ->
  Forall reads_own_key (fields_of cls) ->
  exists w',
    reset_defaults cls w = (inr tt, w') /\
    forall f, f ∈ fields_of cls ->
      (stale f (store w) ->
       store w' !! key f = Some (field_to_string f (default f)) /\
       writes_to (key f) (trace w')
       = writes_to (key f) (trace w) ++ [field_to_string f (default f)]) /\
      (~ stale f (store w) ->
       store w' !! key f = store w !! key f /\
       writes_to (key f) (trace w') = writes_to (key f) (trace w)).
Proof.
  intros Hnd Hloc.
  destruct (reset_defaults_run cls w Hnd Hloc) as (w' & Hrun & _ & Hin).
  by exists w'.
Qed.

Lemma reset_defaults_sweep_witness :
  exists w',
    reset_defaults Config world_fps_30 = (inr tt, w') /\
    forall f, f ∈ fields_of Config ->
      (stale f (store world_fps_30) ->
       store w' !! key f = Some (field_to_string f (default f)) /\
       writes_to (key f) (trace w')
       = writes_to (key f) (trace world_fps_30)
         ++ [field_to_string f (default f)]) /\
      (~ stale f (store world_fps_30) ->
       store w' !! key f = store world_fps_30 !! key f /\
       writes_to (key f) (trace w')
       = writes_to (key f) (trace world_fps_30)).
Proof.
  exact (reset_defaults_sweep Config world_fps_30
           Config_keys_distinct Config_fields_read_own_key).
Defined.

(** On the store with the FPS limit set to 30 the sweep writes that one
    field back to 60 and nothing else. *)
Example reset_defaults_fps_30 :
  mutations (trace (reset_defaults Config world_fps_30).2)
  = [EvWriteSetting "ShortcutComposer" "FPS limit" "60"] /\
  store (reset_defaults Config world_fps_30).2
    !! ("ShortcutComposer"%string, "FPS limit"%string) = Some "60"%string.
Proof. by vm_compute. Qed.

End FieldSpec.

(** ** The double-axis tracker *)
Module AxisTrackerSpec.
Import AxisTrackers.

Lemma started_app (a b : list HandlerCall) :
  started (a ++ b) = started a ++ started b.
Proof. apply omap_app. Qed.

Lemma cursor_after_app (cur : Point) (a b : list Input) :
  cursor_after cur (a ++ b) = cursor_after (cursor_after cur a) b.
Proof. apply foldl_app. Qed.

Lemma run_app (a b : list Input) (s s1 : System) :
  run a s = inr s1 -> run (a ++ b) s = run b s1.
Proof.
  revert s. induction a as [|i a IH]; intros s; simpl.
  - by intros [= ->].
  - destruct (deliver i s); [done|]. apply IH.
Qed.

(** The timer runs only once a comparator exists, so the timeout slot
    never misses its attribute and no delivery raises. *)
Lemma run_never_raises (inputs : list Input) (s : System) :
  (timer_active (tracker s) = true -> is_Some (comparator (tracker s))) ->
  exists s', run inputs s = inr s'.
Proof.
  revert s. induction inputs as [|i inputs IH]; intros [cur t] Hinv.
  - by eexists.
  - simpl in *. destruct i; simpl.
    + apply IH. simpl. by eexists.
    + apply IH. simpl. exact Hinv.
    + destruct (timer_active t) eqn:Ha; [|apply IH; simpl; congruence].
      destruct (Hinv eq_refl) as [c Hc].
      unfold _start_after_picking_slider. rewrite Hc.
      destruct (_ && _); apply IH; simpl; [by eexists | done].
    + apply IH. exact Hinv.
Qed.

(** While no timeout sees a delta above 10 pixels the tracker does not
    change: no handler call, the timer still active. *)
Lemma undecided_run (inputs : list Input) :
  forall (c : MouseComparator) (cur : Point) (t : DoubleAxisTracker),
    comparator t = Some c ->
    timer_active t = true ->
    undecided c cur inputs = true ->
    run inputs (mkSystem cur t) = inr (mkSystem (cursor_after cur inputs) t).
Proof.
  induction inputs as [|i inputs IH]; intros c cur t Hc Ha Hu; [done|].
  destruct i; simpl in Hu; try discriminate.
  - apply andb_true_iff in Hu as [Hd Hu].
    simpl. rewrite Ha. unfold _start_after_picking_slider. rewrite Hc, Hd.
    by apply (IH c).
  - simpl. by apply (IH c).
Qed.

(** With the timer stopped and no new key press, no handler is started
    and the timer stays stopped. *)
Lemma stopped_timer_run (rest : list Input) :
  forall s : System,
    timer_active (tracker s) = false ->
    forallb (fun i => negb (is_key_press i)) rest = true ->
    exists s',
      run rest s = inr s' /\
      timer_active (tracker s') = false /\
      started (calls (tracker s')) = started (calls (tracker s)).
Proof.
  induction rest as [|i rest IH]; intros [cur t] Ha Hk; [by eexists|].
  simpl in Hk. apply andb_true_iff in Hk as [Hi Hk].
  destruct i; simpl in *; try discriminate.
  - destruct (IH (mkSystem cur (on_every_key_release t)) Ha Hk)
      as (s' & Hrun & Ha' & Hs').
    exists s'. repeat split; try done.
    rewrite Hs'. simpl. rewrite started_app. simpl. by rewrite app_nil_r.
  - rewrite Ha. by apply IH.
  - by apply (IH (mkSystem p t)).
Qed.

(** A press released while the decision is still open: up to and
    including the release the only handler calls are the two stops, and
    the decision timer is left active. *)
Lemma release_before_decision (t : DoubleAxisTracker) (cur : Point)
  (pre : list Input) :
  undecided (mkComparator cur.1 cur.2) cur pre = true ->
  run (KeyPress :: pre ++ [KeyRelease]) (mkSystem cur t)
  = inr (mkSystem (cursor_after cur pre)
           (mkTracker (Some (mkComparator cur.1 cur.2)) true
                      (calls t ++ [HStop Horizontal; HStop Vertical]))).
Proof.
  intros Hu. simpl.
  erewrite run_app; [|by apply (undecided_run pre (mkComparator cur.1 cur.2))].
  done.
Qed.

(** The release does not stop the decision timer: its next timeout, if
    the cursor is by then more than 10 pixels away from where the key was
    pressed, starts a handler although the key is up. *)
Lemma timeout_after_release_starts_handler (t : DoubleAxisTracker)
  (cur p : Point) (pre : list Input) :
  let c := mkComparator cur.1 cur.2 in
  undecided c cur pre = true ->
  10 < Z.max (delta_x c p) (delta_y c p) ->
  run (KeyPress :: pre ++ [KeyRelease; CursorMove p; Timeout])
      (mkSystem cur t)
  = inr (mkSystem p
           (mkTracker (Some c) false
              (calls t ++ [HStop Horizontal; HStop Vertical;
                           HStart (if delta_x c p >? delta_y c p
                                   then Horizontal else Vertical)]))).
Proof.
  intros c Hu Hmax. simpl.
  erewrite run_app; [|by apply (undecided_run pre c)].
  simpl. unfold _start_after_picking_slider. simpl. fold c.
  assert (Hd : (delta_x c p <=? 10) && (delta_y c p <=? 10) = false).
  { apply andb_false_iff.
    destruct (Z.leb_spec (delta_x c p) 10); [|by left].
    right. apply Z.leb_gt. lia. }
  rewrite Hd. by rewrite <- app_assoc.
Qed.

(** C1, at the failing input: the key is pressed at (0,0), a timeout
    sees the cursor at (5,5), the key is released, and the next timeout
    of the timer, which the release did not stop, finds the cursor at
    (20,0) and starts the horizontal handler after both handlers were
    stopped. *)
Theorem release_leaves_decision_timer_running :
  run [KeyPress; CursorMove (5, 5); Timeout; KeyRelease;
       CursorMove (20, 0); Timeout]
      (mkSystem (0, 0) new_tracker)
  = inr (mkSystem (20, 0)
           (mkTracker (Some (mkComparator 0 0)) false
                      [HStop Horizontal; HStop Vertical; HStart Horizontal])).
Proof. reflexivity. Qed.

(** C5: after a press, the first timeout that sees a delta above 10
    pixels starts exactly one handler, the horizontal one when delta_x is
    greater than delta_y and the vertical one otherwise, and stops the
    timer; until the next key press the timer stays stopped and no other
    handler is started. *)
Theorem decision_tick_picks_one_handler
  (t : DoubleAxisTracker) (cur : Point) (pre rest : list Input) :
  let c := mkComparator cur.1 cur.2 in
  let cur' := cursor_after cur pre in
  undecided c cur pre = true ->
  10 < Z.max (delta_x c cur') (delta_y c cur') ->
  forallb (fun i => negb (is_key_press i)) rest = true ->
  exists (t1 : DoubleAxisTracker) (s2 : System),
    run (KeyPress :: pre ++ [Timeout]) (mkSystem cur t)
    = inr (mkSystem cur' t1) /\
    calls t1
    = calls t ++ [HStart (if delta_x c cur' >? delta_y c cur'
                          then Horizontal else Vertical)] /\
    timer_active t1 = false /\
    run rest (mkSystem cur' t1) = inr s2 /\
    timer_active (tracker s2) = false /\
    started (calls (tracker s2)) = started (calls t1).
Proof.
  intros c cur' Hu Hmax Hk.
  set (t1 := mkTracker (Some c) false
               (calls t ++ [HStart (if delta_x c cur' >? delta_y c cur'
                                    then Horizontal else Vertical)])).
  destruct (stopped_timer_run rest (mkSystem cur' t1) eq_refl Hk)
    as (s2 & Hrun & Ha & Hs).
  exists t1, s2. repeat split; try done.
  simpl. erewrite run_app; [|by apply (undecided_run pre c)].
  simpl. unfold _start_after_picking_slider. simpl.
  fold c. fold cur'.
  assert (Hd : (delta_x c cur' <=? 10) && (delta_y c cur' <=? 10) = false).
  { apply andb_false_iff.
    destruct (Z.leb_spec (delta_x c cur') 10); [|by left].
    right. apply Z.leb_gt. lia. }
  rewrite Hd. done.
Qed.

(** The scenario of the specification: 15 px to the right and 3 px down
    start the horizontal handler, and the vertical one is never started,
    whatever the cursor does later in the press. *)
Lemma decision_tick_picks_one_handler_witness :
  exists (t1 : DoubleAxisTracker) (s2 : System),
    run (KeyPress :: [CursorMove (15, 3)] ++ [Timeout])
        (mkSystem (0, 0) new_tracker)
    = inr (mkSystem (15, 3) t1) /\
    calls t1 = [HStart Horizontal] /\
    timer_active t1 = false /\
    run [Timeout; CursorMove (20, 90); Timeout; KeyRelease]
        (mkSystem (15, 3) t1) = inr s2 /\
    timer_active (tracker s2) = false /\
    started (calls (tracker s2)) = started (calls t1).
Proof.
  exact (decision_tick_picks_one_handler new_tracker (0, 0)
           [CursorMove (15, 3)]
           [Timeout; CursorMove (20, 90); Timeout; KeyRelease]
           eq_refl eq_refl eq_refl).
Defined.

End AxisTrackerSpec.

(** ** The pie manager and the label animator *)
Module PieSpec.
Import AxisTrackers PieMenu Scenario.

Lemma Qltb_lt (x y : Q) : Qltb x y = true <-> (x < y)%Q.
Proof.
  unfold Qltb. rewrite Qlt_alt. destruct (x ?= y)%Q; split; congruence.
Qed.

Section Pie.
Context {Label Angle : Type} `{EqDecision Label}.
Implicit Types (m : PieManager Label Angle) (l : LabelState Label).

Lemma set_active_label_active (a : option Label) m :
  active (pie_widget (_set_active_label a m)) = a.
Proof.
  unfold _set_active_label. case_bool_decide as Hne; [done|].
  destruct (decide (active (pie_widget m) = a)); [done|]. by destruct Hne.
Qed.

(** C8, amended: while the pie widget is visible, a cursor closer to the
    centre than the deadzone makes the active label None, whatever its
    angle. *)
Theorem handle_cursor_in_deadzone (cursor : Point) m :
  visible (pie_widget m) = true ->
  (distance (circle m) cursor < deadzone (pie_widget m))%Q ->
  active (pie_widget (_handle_cursor cursor m)) = None.
Proof.
  intros Hv Hd. unfold _handle_cursor. rewrite Hv. simpl.
  apply Qltb_lt in Hd. rewrite Hd. apply set_active_label_active.
Qed.

(** *** One label under repeated steps *)

Lemma step_label_label (act : option Label) l :
  label (step_label act l) = label l.
Proof. unfold step_label. by case_bool_decide. Qed.

Lemma step_label_speed (act : option Label) l :
  speed (activation_progress (step_label act l))
  = speed (activation_progress l).
Proof. unfold step_label. by case_bool_decide. Qed.

Lemma step_label_in_range (act : option Label) l :
  in_range l -> in_range (step_label act l).
Proof.
  unfold in_range. intros (Hs & H0 & H1).
  rewrite step_label_speed. split; [done|].
  unfold step_label. case_bool_decide; simpl.
  - destruct (Q.min_spec (value (activation_progress l)
                          + speed (activation_progress l)) 1)
      as [[? E]|[? E]]; rewrite E; split; lra.
  - destruct (Q.max_spec (value (activation_progress l)
                          - speed (activation_progress l)) 0)
      as [[? E]|[? E]]; rewrite E; split; lra.
Qed.

Lemma at_bound_resting l : at_bound l = true <-> resting l.
Proof.
  unfold at_bound, resting.
  by rewrite orb_true_iff, !Qeq_bool_iff.
Qed.

(** A label that rests right after a step rests at its own bound. *)
Lemma resting_after_step (act : option Label) l :
  in_range l -> resting (step_label act l) ->
  (value (activation_progress (step_label act l)) == target act l)%Q.
Proof.
  unfold in_range, resting, target, step_label.
  intros (Hs & H0 & H1). case_bool_decide; simpl.
  - destruct (Q.min_spec (value (activation_progress l)
                          + speed (activation_progress l)) 1)
      as [[? E]|[? E]]; rewrite E; intros [?|?]; lra.
  - destruct (Q.max_spec (value (activation_progress l)
                          - speed (activation_progress l)) 0)
      as [[? E]|[? E]]; rewrite E; intros [?|?]; lra.
Qed.

Lemma iter_step_label (act : option Label) (k : nat) l :
  in_range l ->
  let lk := Nat.iter k (step_label act) l in
  in_range lk /\ label lk = label l /\
  speed (activation_progress lk) = speed (activation_progress l) /\
  (if bool_decide (act = Some (label l))
   then (1 <= value (activation_progress lk) \/
         value (activation_progress l)
         + inject_Z (Z.of_nat k) * speed (activation_progress l)
         <= value (activation_progress lk))%Q
   else (value (activation_progress lk) <= 0 \/
         value (activation_progress lk)
         <= value (activation_progress l)
            - inject_Z (Z.of_nat k) * speed (activation_progress l))%Q).
Proof.
  intros Hr. induction k as [|k IH].
  - change (Nat.iter 0 (step_label act) l) with l. cbv zeta.
    repeat split; try done; try apply Hr.
    change (inject_Z (Z.of_nat 0)) with 0%Q.
    case_bool_decide; right; lra.
  - cbv zeta in IH. destruct IH as (Hrk & Hl & Hs & Hv).
    rewrite Nat.iter_succ. cbv zeta.
    set (lk := Nat.iter k (step_label act) l) in *.
    split; [by apply step_label_in_range|].
    split; [by rewrite step_label_label|].
    split; [by rewrite step_label_speed|].
    destruct Hrk as (Hsp & H0 & H1).
    assert (Ek : (inject_Z (Z.of_nat (S k)) == inject_Z (Z.of_nat k) + 1)%Q).
    { rewrite Nat2Z.inj_succ. unfold Z.succ. by rewrite inject_Z_plus. }
    unfold step_label. rewrite Hl.
    case_bool_decide; simpl; rewrite Ek.
    + destruct (Q.min_spec (value (activation_progress lk)
                            + speed (activation_progress lk)) 1)
        as [[? E]|[? E]]; rewrite E; [|left; lra].
      destruct Hv as [?|?]; [left; lra|]. right. rewrite Hs in *. lra.
    + destruct (Q.max_spec (value (activation_progress lk)
                            - speed (activation_progress lk)) 0)
        as [[? E]|[? E]]; rewrite E; [left; lra|].
      destruct Hv as [?|?]; [left; lra|]. right. rewrite Hs in *. lra.
Qed.

(** A positive step [p/q] taken [q] times covers at least 1. *)
Lemma den_steps_cover (x : Q) :
  (0 < x)%Q -> (1 <= inject_Z (Zpos (Qden x)) * x)%Q.
Proof.
  destruct x as [n d]. unfold Qlt, Qle, Qmult, inject_Z. simpl. nia.
Qed.

Lemma label_settles (act : option Label) (k : nat) l :
  in_range l ->
  (Pos.to_nat (Qden (speed (activation_progress l))) <= k)%nat ->
  (value (activation_progress (Nat.iter k (step_label act) l))
   == target act l)%Q.
Proof.
  intros Hr Hk.
  destruct (iter_step_label act k l Hr) as (Hrk & _ & _ & Hv).
  destruct Hr as (Hs & H0 & H1). destruct Hrk as (_ & H0k & H1k).
  pose proof (den_steps_cover _ Hs) as Hc.
  assert (Hle : (inject_Z (Zpos (Qden (speed (activation_progress l))))
                 <= inject_Z (Z.of_nat k))%Q).
  { rewrite <- Zle_Qle. lia. }
  assert (Hks : (1 <= inject_Z (Z.of_nat k) * speed (activation_progress l))%Q).
  { eapply Qle_trans; [exact Hc|].
    apply Qmult_le_compat_r; [exact Hle | lra]. }
  unfold target. case_bool_decide; destruct Hv; lra.
Qed.

(** *** The holder under repeated steps *)

Lemma iter_fmap {A : Type} (f : A -> A) (k : nat) (xs : list A) :
  Nat.iter k (fmap f) xs = Nat.iter k f <$> xs.
Proof.
  induction k as [|k IH]; simpl.
  - by rewrite list_fmap_id.
  - by rewrite IH, <- list_fmap_compose.
Qed.

Lemma iter_steps_in_range (act : option Label) (k : nat)
  (ls : list (LabelState Label)) :
  Forall in_range ls ->
  Forall in_range (Nat.iter k (fmap (step_label act)) ls).
Proof.
  intros Hr. rewrite iter_fmap. apply Forall_fmap.
  eapply Forall_impl; [exact Hr|]. intros l Hl. simpl.
  by destruct (iter_step_label act k l Hl).
Qed.

Lemma labels_settle (act : option Label) (k : nat)
  (ls : list (LabelState Label)) :
  Forall in_range ls ->
  (settle_ticks ls <= k)%nat ->
  Forall resting (Nat.iter k (fmap (step_label act)) ls).
Proof.
  intros Hr Hk. rewrite iter_fmap. apply Forall_fmap.
  induction Hr as [|l ls Hl Hr IH]; [constructor|].
  simpl in Hk. constructor.
  - simpl. unfold resting.
    rewrite (label_settles act k l Hl) by lia.
    unfold target. case_bool_decide; [by right | by left].
  - apply IH. lia.
Qed.

(** Labels that rest right after a step of the whole holder rest at
    their own bounds. *)
Lemma holder_resting_after_step (act : option Label)
  (ls : list (LabelState Label)) :
  Forall in_range ls ->
  Forall resting (step_label act <$> ls) ->
  Forall (fun l => (value (activation_progress l) == target act l)%Q)
         (step_label act <$> ls).
Proof.
  intros Hr Hrest. rewrite Forall_fmap in *.
  induction Hr as [|l ls Hl Hr IH]; [constructor|].
  apply Forall_cons in Hrest as [H1 H2]. constructor; [|by apply IH].
  simpl in *. unfold target at 1. rewrite step_label_label.
  by apply resting_after_step.
Qed.

(** *** The animator's timer *)

Lemma settle_ticks_pos (ls : list (LabelState Label)) :
  (1 <= settle_ticks ls)%nat.
Proof. induction ls; simpl; lia. Qed.

Lemma update_stops_iff_resting m :
  animator_running m = true ->
  animator_running (_update m) = false <->
  Forall resting (label_holder (pie_widget (_update m))).
Proof.
  intros Hrun. unfold _update. simpl.
  destruct (forallb at_bound _) eqn:E.
  - split; [|done]. intros _.
    apply Forall_forall. intros l Hl.
    apply at_bound_resting. rewrite forallb_forall in E.
    by apply E, list_elem_of_In.
  - rewrite Hrun. split; [done|]. intros Hall.
    assert (forallb at_bound
              (step_label (active (pie_widget m))
                 <$> label_holder (pie_widget m)) = true); [|congruence].
    apply forallb_forall. intros l Hl. apply at_bound_resting.
    rewrite Forall_forall in Hall. by apply Hall, list_elem_of_In.
Qed.

Lemma ticks_stopped (n : nat) m :
  animator_running m = false -> animator_ticks n m = m.
Proof.
  intros Hs. unfold animator_ticks. induction n as [|n IH]; [done|].
  rewrite Nat.iter_succ, IH. unfold animator_tick. by rewrite Hs.
Qed.

Lemma ticks_while_running (n : nat) m :
  animator_running (animator_ticks n m) = true ->
  label_holder (pie_widget (animator_ticks n m))
  = Nat.iter n (fmap (step_label (active (pie_widget m))))
             (label_holder (pie_widget m)) /\
  active (pie_widget (animator_ticks n m)) = active (pie_widget m).
Proof.
  unfold animator_ticks. induction n as [|n IH]; [done|].
  rewrite !Nat.iter_succ.
  set (m' := Nat.iter n animator_tick m) in *.
  unfold animator_tick.
  destruct (animator_running m') eqn:E; [|congruence].
  intros _. destruct (IH eq_refl) as [Hl Ha].
  unfold _update. simpl. by rewrite Hl, Ha.
Qed.

Lemma ticks_after_stop (n : nat) m :
  animator_running m = true ->
  animator_running (animator_ticks n m) = false ->
  active (pie_widget (animator_ticks n m)) = active (pie_widget m) /\
  exists k : nat,
    label_holder (pie_widget (animator_ticks n m))
    = step_label (active (pie_widget m))
        <$> Nat.iter k (fmap (step_label (active (pie_widget m))))
                     (label_holder (pie_widget m)) /\
    Forall resting (label_holder (pie_widget (animator_ticks n m))).
Proof.
  intros Hrun. unfold animator_ticks.
  induction n as [|n IH]; [simpl; congruence|].
  rewrite !Nat.iter_succ.
  set (m' := Nat.iter n animator_tick m) in *.
  destruct (animator_running m') eqn:E.
  - destruct (ticks_while_running n m E) as [Hl Ha].
    unfold animator_ticks in Hl, Ha. fold m' in Hl, Ha.
    unfold animator_tick. rewrite E. intros Hstop.
    split; [by rewrite <- Ha|].
    exists n. split.
    + unfold _update. simpl. by rewrite Hl, Ha.
    + by apply update_stops_iff_resting.
  - unfold animator_tick. rewrite E. intros _. by apply IH.
Qed.

Lemma ticks_stop_within (m : PieManager Label Angle) :
  Forall in_range (label_holder (pie_widget m)) ->
  animator_running
    (animator_ticks (settle_ticks (label_holder (pie_widget m))) m) = false.
Proof.
  intros Hr.
  pose proof (settle_ticks_pos (label_holder (pie_widget m))) as Hpos.
  destruct (settle_ticks (label_holder (pie_widget m))) as [|n] eqn:En;
    [lia|].
  destruct (animator_running (animator_ticks (S n) m)) eqn:E; [|done].
  destruct (ticks_while_running (S n) m E) as [Hl _].
  pose proof (labels_settle (active (pie_widget m)) (S n) _ Hr) as Hall.
  rewrite <- Hl in Hall. specialize (Hall ltac:(lia)).
  unfold animator_ticks in *. rewrite Nat.iter_succ in *.
  set (m' := Nat.iter n animator_tick m) in *.
  unfold animator_tick in *.
  destruct (animator_running m') eqn:E'; [|congruence].
  apply update_stops_iff_resting in Hall; congruence.
Qed.

Lemma update_steps_labels (m : PieManager Label Angle) :
  Forall2 (stepped (active (pie_widget m)))
          (label_holder (pie_widget m))
          (label_holder (pie_widget (_update m))).
Proof.
  unfold _update. simpl.
  induction (label_holder (pie_widget m)) as [|l ls IH]; [constructor|].
  rewrite fmap_cons. constructor; [|exact IH].
  unfold stepped, step_label. by case_bool_decide.
Qed.

Lemma animating_not_resting l : animating l -> ~ resting l.
Proof. unfold animating, resting. intros [H0 H1] [E|E]; lra. Qed.

Lemma iter_steps_labels (act : option Label) (k : nat)
  (ls : list (LabelState Label)) :
  label <$> Nat.iter k (fmap (step_label act)) ls = label <$> ls.
Proof.
  induction k as [|k IH]; [done|].
  rewrite Nat.iter_succ, <- list_fmap_compose, <- IH.
  apply list_fmap_ext. intros i l _. simpl. apply step_label_label.
Qed.

(** Once stopped, the timer stays stopped. *)
Lemma ticks_stay_stopped (k j : nat) m :
  (k <= j)%nat ->
  animator_running (animator_ticks k m) = false ->
  animator_ticks j m = animator_ticks k m.
Proof.
  intros Hkj Hs. replace j with ((j - k) + k)%nat at 1 by lia.
  unfold animator_ticks at 1. rewrite Nat.iter_add.
  by apply ticks_stopped.
Qed.

(** The first tick that stops the timer. *)
Lemma first_stop (bound : nat) m :
  animator_running m = true ->
  animator_running (animator_ticks bound m) = false ->
  exists n : nat,
    (1 <= n <= bound)%nat /\
    animator_running (animator_ticks n m) = false /\
    forall k : nat, (k < n)%nat -> animator_running (animator_ticks k m) = true.
Proof.
  intros Hrun. induction bound as [|bound IH]; intros Hstop.
  - unfold animator_ticks in Hstop. simpl in Hstop. congruence.
  - destruct (animator_running (animator_ticks bound m)) eqn:E.
    + exists (S bound). split; [lia|]. split; [done|].
      intros k Hk.
      destruct (animator_running (animator_ticks k m)) eqn:Ek; [done|].
      rewrite (ticks_stay_stopped k bound m) in E by (lia || done).
      congruence.
    + destruct (IH eq_refl) as (n & Hn & Hs & Hbefore).
      exists n. split; [lia|]. by split.
Qed.

(** C4: a tick of the running animator leaves the active label and the
    rest of the pie alone and moves every label of the holder one step,
    the active one up and the others down; it stops the timer exactly
    when, after the step, every label's value is 0 or 1, so the timer
    keeps running while some value lies strictly between; and, for
    progress values in [0,1] with positive steps and the active label
    unchanged, there is a first tick, among the first [settle_ticks],
    that stops the timer: until it the timer runs, at it the holder has
    the labels it started with, each resting at its own bound (1 for the
    active label, 0 for the others), and later ticks change nothing. *)
Theorem animator_stops_when_resting (m : PieManager Label Angle) :
  animator_running m = true ->
  let act := active (pie_widget m) in
  let before := label_holder (pie_widget m) in
  let after := label_holder (pie_widget (_update m)) in
  (Forall2 (stepped act) before after /\
   active (pie_widget (_update m)) = act /\
   visible (pie_widget (_update m)) = visible (pie_widget m) /\
   deadzone (pie_widget (_update m)) = deadzone (pie_widget m) /\
   circle (_update m) = circle m /\
   timer_running (_update m) = timer_running m) /\
  (animator_running (_update m) = false <-> Forall resting after) /\
  (Exists animating after -> animator_running (_update m) = true) /\
  (Forall in_range before ->
   exists n : nat,
     (1 <= n <= settle_ticks before)%nat /\
     (forall k : nat,
        (k < n)%nat -> animator_running (animator_ticks k m) = true) /\
     animator_running (animator_ticks n m) = false /\
     active (pie_widget (animator_ticks n m)) = act /\
     label <$> label_holder (pie_widget (animator_ticks n m))
     = label <$> before /\
     Forall (fun l => (value (activation_progress l) == target act l)%Q)
            (label_holder (pie_widget (animator_ticks n m))) /\
     forall k : nat, (n <= k)%nat -> animator_ticks k m = animator_ticks n m).
Proof.
  intros Hrun act before after.
  pose proof (update_stops_iff_resting m Hrun) as Hiff.
  split; [|split; [exact Hiff|split]].
  - split; [apply update_steps_labels|]. by repeat split.
  - intros Hex.
    destruct (animator_running (_update m)) eqn:E; [done|].
    pose proof (proj1 Hiff eq_refl) as Hall.
    apply Exists_exists in Hex as (l & Hl & Hanim).
    destruct (animating_not_resting l Hanim).
    rewrite Forall_forall in Hall. by apply Hall.
  - intros Hr.
    destruct (first_stop (settle_ticks before) m Hrun (ticks_stop_within m Hr))
      as (n & Hn & Hstop & Hbefore).
    exists n. split; [exact Hn|]. split; [exact Hbefore|].
    split; [exact Hstop|].
    destruct (ticks_after_stop n m Hrun Hstop) as (Hact & k & Hl & Hrest).
    split; [exact Hact|]. split; [|split].
    + rewrite Hl, <- list_fmap_compose.
      rewrite <- (iter_steps_labels act k before).
      apply list_fmap_ext. intros i l _. simpl. apply step_label_label.
    + rewrite Hl in *.
      apply holder_resting_after_step; [|done].
      by apply iter_steps_in_range.
    + intros j Hj. by apply ticks_stay_stopped.
Qed.

End Pie.

Lemma compass_labels_in_range : Forall in_range compass_labels.
Proof.
  unfold compass_labels. simpl.
  repeat (constructor; [unfold in_range; simpl; lra|]).
  constructor.
Qed.

Lemma animator_stops_when_resting_witness :
  let m := compass_pie_animating in
  let act := Some "eraser"%string in
  let before := compass_labels in
  let after := label_holder (pie_widget (_update m)) in
  (Forall2 (stepped act) before after /\
   active (pie_widget (_update m)) = act /\
   visible (pie_widget (_update m)) = visible (pie_widget m) /\
   deadzone (pie_widget (_update m)) = deadzone (pie_widget m) /\
   circle (_update m) = circle m /\
   timer_running (_update m) = timer_running m) /\
  (animator_running (_update m) = false <-> Forall resting after) /\
  (Exists animating after -> animator_running (_update m) = true) /\
  exists n : nat,
    (1 <= n <= settle_ticks before)%nat /\
    (forall k : nat,
       (k < n)%nat -> animator_running (animator_ticks k m) = true) /\
    animator_running (animator_ticks n m) = false /\
    active (pie_widget (animator_ticks n m)) = act /\
    label <$> label_holder (pie_widget (animator_ticks n m))
    = label <$> before /\
    Forall (fun l => (value (activation_progress l) == target act l)%Q)
           (label_holder (pie_widget (animator_ticks n m))) /\
    forall k : nat, (n <= k)%nat -> animator_ticks k m = animator_ticks n m.
Proof.
  destruct (animator_stops_when_resting compass_pie_animating eq_refl)
    as (Hstep & Hstop & Hkeeps & Hlive).
  exact (conj Hstep (conj Hstop (conj Hkeeps (Hlive compass_labels_in_range)))).
Defined.

(** With a step of 1/4 the animation of the scenario takes four ticks:
    the timer still runs after three and is stopped by the fourth, with
    the active label at 1 and the others at 0. *)
Example compass_animation_four_ticks :
  animator_running (animator_ticks 3 compass_pie_animating) = true /\
  animator_running (animator_ticks 4 compass_pie_animating) = false /\
  (fun l => (label l, Qred (value (activation_progress l))))
    <$> label_holder (pie_widget (animator_ticks 4 compass_pie_animating))
  = [("brush", 0); ("eraser", 1); ("fill", 0); ("picker", 0)]%string%Q.
Proof. by vm_compute. Qed.

Lemma handle_cursor_in_deadzone_witness :
  active (pie_widget
            (_handle_cursor (103, 96) (compass_pie true (Some "brush"%string))))
  = None.
Proof.
  exact (handle_cursor_in_deadzone (103, 96)
           (compass_pie true (Some "brush"%string)) eq_refl eq_refl).
Defined.

(** C8, as stated, fails: when the widget is hidden the handler stops the
    loop and returns before it looks at the cursor, so a cursor at the
    very centre (distance 0, deadzone 20) leaves the active label as it
    was. *)
Lemma handle_cursor_hidden_keeps_active :
  let m := compass_pie false (Some "brush"%string) in
  let centre : Point := (100, 100) in
  (distance (circle m) centre < deadzone (pie_widget m))%Q /\
  active (pie_widget (_handle_cursor centre m)) = Some "brush"%string.
Proof. split; reflexivity. Qed.

End PieSpec.

(** ** The offset grid of the settings scroll area *)
Module ScrollAreaSpec.
Import ScrollArea.

(** *** Positions *)

(** Quotient and remainder of an index by the size of a group. *)
Lemma group_item (m i : Z) :
  1 <= m -> 0 <= i ->
  i = (2 * m - 1) * (i / (2 * m - 1)) + i mod (2 * m - 1) /\
  0 <= i / (2 * m - 1) /\
  0 <= i mod (2 * m - 1) < 2 * m - 1.
Proof.
  intros Hm Hi. split; [apply Z.div_mod; lia|]. split.
  - apply Z.div_pos; lia.
  - apply Z.mod_pos_bound. lia.
Qed.

Lemma get_position_disjoint (self : OffsetGridLayout) (i j : Z)
  (wi wj : nat) (row col : Z) :
  1 <= _max_columns self -> 0 <= i -> 0 <= j -> i <> j ->
  ~ (covers (mkAddWidget wi (_get_position self i) 2 2) row col /\
     covers (mkAddWidget wj (_get_position self j) 2 2) row col).
Proof.
  intros Hm Hi Hj Hne [Hci Hcj].
  destruct (group_item _ i Hm Hi) as (Ei & Hgi & Hti).
  destruct (group_item _ j Hm Hj) as (Ej & Hgj & Htj).
  unfold covers, _get_position, _items_in_group in *.
  set (gi := i / (2 * _max_columns self - 1)) in *.
  set (ti := i mod (2 * _max_columns self - 1)) in *.
  set (gj := j / (2 * _max_columns self - 1)) in *.
  set (tj := j mod (2 * _max_columns self - 1)) in *.
  assert (gi = gj /\ ti = tj) as [Eg Et].
  { destruct (Z.ltb_spec ti (_max_columns self)),
             (Z.ltb_spec tj (_max_columns self)); simpl in *; lia. }
  apply Hne. rewrite Ei, Ej. by rewrite Eg, Et.
Qed.

(** X1: for a layout of at least one column, the 2x2 blocks of fields at
    the positions of two different indices share no field of the grid. *)
Theorem positions_never_overlap (self : OffsetGridLayout) (i j : Z)
  (wi wj : nat) (row col : Z) :
  1 <= _max_columns self -> 0 <= i -> 0 <= j -> i <> j ->
  ~ (covers (mkAddWidget wi (_get_position self i) 2 2) row col /\
     covers (mkAddWidget wj (_get_position self j) 2 2) row col).
Proof. apply get_position_disjoint. Qed.

Lemma positions_never_overlap_witness :
  ~ (covers (mkAddWidget 0 (_get_position (new_layout 4) 3) 2 2) 2 6 /\
     covers (mkAddWidget 1 (_get_position (new_layout 4) 6) 2 2) 2 6).
Proof.
  exact (positions_never_overlap (new_layout 4) 3 6 0%nat 1%nat 2 6
           ltac:(simpl; lia) ltac:(lia) ltac:(lia) ltac:(lia)).
Defined.

(** X2: the block of every index lies inside the grid: rows and columns
    are not negative and the block ends within [2 * max_columns]
    columns; full rows start on even columns and the rows between them,
    two fields lower, on odd ones, half a widget to the right. *)
Theorem position_within_grid (self : OffsetGridLayout) (i : Z) :
  1 <= _max_columns self -> 0 <= i ->
  let p := _get_position self i in
  0 <= gridrow p /\ 0 <= gridcol p /\
  gridcol p + 2 <= 2 * _max_columns self /\
  (gridrow p mod 4 = 0 /\ Z.even (gridcol p) = true \/
   gridrow p mod 4 = 2 /\ Z.odd (gridcol p) = true).
Proof.
  intros Hm Hi.
  destruct (group_item _ i Hm Hi) as (_ & Hg & Ht).
  unfold _get_position, _items_in_group.
  set (g := i / (2 * _max_columns self - 1)) in *.
  set (t := i mod (2 * _max_columns self - 1)) in *.
  destruct (Z.ltb_spec t (_max_columns self)); simpl.
  - repeat split; try lia. left. split.
    + by rewrite Z.mod_mul.
    + by rewrite Z.even_mul, orb_true_r.
  - repeat split; try lia. right. split.
    + rewrite Z.add_comm, Z.mod_add by lia. done.
    + rewrite Z.odd_add, Z.odd_mul. simpl. by rewrite andb_false_r.
Qed.

Lemma position_within_grid_witness :
  let p := _get_position (new_layout 4) 5 in
  0 <= gridrow p /\ 0 <= gridcol p /\
  gridcol p + 2 <= 2 * 4 /\
  (gridrow p mod 4 = 0 /\ Z.even (gridcol p) = true \/
   gridrow p mod 4 = 2 /\ Z.odd (gridcol p) = true).
Proof.
  exact (position_within_grid (new_layout 4) 5 ltac:(simpl; lia) ltac:(lia)).
Defined.

(** X3: positions follow the reading order of the grid: a greater index
    is placed in a lower row, or later in the same row. *)
Theorem positions_in_reading_order (self : OffsetGridLayout) (i j : Z) :
  1 <= _max_columns self -> 0 <= i < j ->
  let p := _get_position self i in
  let q := _get_position self j in
  gridrow p < gridrow q \/ (gridrow p = gridrow q /\ gridcol p < gridcol q).
Proof.
  intros Hm Hij.
  destruct (group_item _ i Hm ltac:(lia)) as (Ei & Hgi & Hti).
  destruct (group_item _ j Hm ltac:(lia)) as (Ej & Hgj & Htj).
  assert (Hle : i / (2 * _max_columns self - 1)
                <= j / (2 * _max_columns self - 1)).
  { apply Z.div_le_mono; lia. }
  unfold _get_position, _items_in_group.
  set (gi := i / (2 * _max_columns self - 1)) in *.
  set (ti := i mod (2 * _max_columns self - 1)) in *.
  set (gj := j / (2 * _max_columns self - 1)) in *.
  set (tj := j mod (2 * _max_columns self - 1)) in *.
  destruct (decide (gi = gj)) as [Eg|Hg].
  - assert (ti < tj) by (rewrite Eg in Ei; lia).
    destruct (Z.ltb_spec ti (_max_columns self)),
             (Z.ltb_spec tj (_max_columns self)); simpl; lia.
  - destruct (Z.ltb_spec ti (_max_columns self)),
             (Z.ltb_spec tj (_max_columns self)); simpl; lia.
Qed.

Lemma positions_in_reading_order_witness :
  let p := _get_position (new_layout 4) 3 in
  let q := _get_position (new_layout 4) 4 in
  gridrow p < gridrow q \/ (gridrow p = gridrow q /\ gridcol p < gridcol q).
Proof.
  exact (positions_in_reading_order (new_layout 4) 3 4
           ltac:(simpl; lia) ltac:(lia)).
Defined.

(** X4: the rows cycle as the docstring says: group [g] holds
    [max_columns] widgets in row [4g], on the columns 0, 2, 4, ..., and
    then [max_columns - 1] widgets in row [4g + 2], on the columns
    1, 3, 5, ... *)
Theorem rows_cycle (self : OffsetGridLayout) (g : Z) :
  1 <= _max_columns self -> 0 <= g ->
  (forall c, 0 <= c < _max_columns self ->
     _get_position self (g * _items_in_group self + c)
     = mkGridPosition (4 * g) (2 * c)) /\
  (forall c, 0 <= c < _max_columns self - 1 ->
     _get_position self (g * _items_in_group self + _max_columns self + c)
     = mkGridPosition (4 * g + 2) (2 * c + 1)).
Proof.
  intros Hm Hg. unfold _get_position, _items_in_group. split; intros c Hc.
  - rewrite (Z.add_comm (g * _)), Z.div_add, Z.mod_add by lia.
    rewrite Z.div_small, Z.mod_small by lia.
    destruct (Z.ltb_spec c (_max_columns self)); [|lia]. f_equal; lia.
  - rewrite <- Z.add_assoc, (Z.add_comm (g * _)), Z.div_add, Z.mod_add by lia.
    rewrite Z.div_small, Z.mod_small by lia.
    destruct (Z.ltb_spec (_max_columns self + c) (_max_columns self)); [lia|].
    f_equal; lia.
Qed.

Lemma rows_cycle_witness :
  (forall c, 0 <= c < 4 ->
     _get_position (new_layout 4) (1 * 7 + c)
     = mkGridPosition (4 * 1) (2 * c)) /\
  (forall c, 0 <= c < 4 - 1 ->
     _get_position (new_layout 4) (1 * 7 + 4 + c)
     = mkGridPosition (4 * 1 + 2) (2 * c + 1)).
Proof.
  exact (rows_cycle (new_layout 4) 1 ltac:(simpl; lia) ltac:(lia)).
Defined.

End ScrollAreaSpec.

(** ** The widgets held by the offset grid *)
Module GridLayoutSpec.
Import ScrollArea.

Lemma list_insert_split {A : Type} (index : Z) (x : A) (l : list A) :
  exists n : nat,
    (n <= length l)%nat /\
    list_insert index x l = take n l ++ x :: drop n l /\
    (0 <= index <= Z.of_nat (length l) -> n = Z.to_nat index).
Proof.
  unfold list_insert.
  destruct (Z.ltb_spec index 0).
  - exists (Z.to_nat (Z.max 0 (index + Z.of_nat (length l)))).
    split; [lia|]. split; [done|lia].
  - exists (Z.to_nat (Z.min index (Z.of_nat (length l)))).
    split; [lia|]. split; [done|]. intros ?. f_equal. lia.
Qed.

Lemma list_insert_perm {A : Type} (index : Z) (x : A) (l : list A) :
  list_insert index x l ≡ₚ x :: l.
Proof.
  destruct (list_insert_split index x l) as (n & _ & -> & _).
  rewrite <- Permutation_middle. by rewrite take_drop.
Qed.

Lemma list_insert_sublist {A : Type} (index : Z) (x : A) (l : list A) :
  l `sublist_of` list_insert index x l.
Proof.
  destruct (list_insert_split index x l) as (n & _ & -> & _).
  rewrite <- (take_drop n l) at 1.
  apply sublist_app; [done|]. by apply sublist_cons.
Qed.

Lemma list_insert_end {A : Type} (x : A) (l : list A) :
  list_insert (Z.of_nat (length l)) x l = l ++ [x].
Proof.
  destruct (list_insert_split (Z.of_nat (length l)) x l) as (n & _ & -> & Hn).
  rewrite Hn by lia. rewrite Nat2Z.id.
  by rewrite take_ge, drop_ge by lia.
Qed.

Lemma internal_insert_NoDup (index : Z) (widget : nat)
  (self : OffsetGridLayout) :
  NoDup (_widgets self) -> NoDup (_widgets (_internal_insert index widget self)).
Proof.
  intros Hnd. unfold _internal_insert. case_bool_decide; [done|]. simpl.
  rewrite list_insert_perm. by constructor.
Qed.

Lemma internal_insert_end (widget : nat) (self : OffsetGridLayout) :
  _widgets (_internal_insert (len self) widget self)
  = _widgets self ++ (if bool_decide (widget ∈ _widgets self)
                      then [] else [widget]).
Proof.
  unfold _internal_insert, len. case_bool_decide; simpl.
  - by rewrite app_nil_r.
  - apply list_insert_end.
Qed.

Lemma internal_insert_columns (index : Z) (widget : nat)
  (self : OffsetGridLayout) :
  _max_columns (_internal_insert index widget self) = _max_columns self.
Proof. unfold _internal_insert. by case_bool_decide. Qed.

(** What the loop of [extend] leaves in the list. *)
Lemma extend_loop (widgets : list nat) :
  forall self : OffsetGridLayout,
    let after :=
      foldl (fun layout widget => _internal_insert (len layout) widget layout)
            self widgets in
    _widgets self `prefix_of` _widgets after /\
    (forall x, x ∈ _widgets after <-> x ∈ _widgets self \/ x ∈ widgets) /\
    (NoDup (_widgets self) -> NoDup (_widgets after)) /\
    _max_columns after = _max_columns self.
Proof.
  induction widgets as [|w widgets IH]; intros self; simpl.
  - repeat split; try done.
    + intros ?. by left.
    + intros [?|Hx]; [done|]. by apply elem_of_nil in Hx.
  - destruct (IH (_internal_insert (len self) w self))
      as (Hpre & Hin & Hnd & Hcol).
    rewrite internal_insert_end in Hpre, Hin.
    split; [by eapply prefix_app_l|]. split; [|split].
    + intros x. rewrite Hin, elem_of_app, elem_of_cons.
      case_bool_decide.
      * rewrite elem_of_nil. split; [tauto|].
        intros [?|[->|?]]; tauto.
      * rewrite list_elem_of_singleton. tauto.
    + intros Hs. by apply Hnd, internal_insert_NoDup.
    + by rewrite Hcol, internal_insert_columns.
Qed.

Lemma apply_op_NoDup (self : OffsetGridLayout) (op : LayoutOp) :
  NoDup (_widgets self) -> NoDup (_widgets (apply_op self op)).
Proof.
  intros Hnd. destruct op as [i w|w|ws]; simpl.
  - by apply internal_insert_NoDup.
  - by apply internal_insert_NoDup.
  - by apply (extend_loop ws self).
Qed.

Lemma run_ops_NoDup (ops : list LayoutOp) :
  forall self : OffsetGridLayout,
    NoDup (_widgets self) -> NoDup (_widgets (foldl apply_op self ops)).
Proof.
  induction ops as [|op ops IH]; intros self Hnd; [done|].
  simpl. by apply IH, apply_op_NoDup.
Qed.

Lemma apply_op_columns (self : OffsetGridLayout) (op : LayoutOp) :
  _max_columns (apply_op self op) = _max_columns self.
Proof.
  destruct op as [i w|w|ws]; simpl.
  - apply internal_insert_columns.
  - apply internal_insert_columns.
  - by apply (extend_loop ws self).
Qed.

Lemma run_ops_columns (ops : list LayoutOp) :
  forall self : OffsetGridLayout,
    _max_columns (foldl apply_op self ops) = _max_columns self.
Proof.
  induction ops as [|op ops IH]; intros self; [done|].
  simpl. by rewrite IH, apply_op_columns.
Qed.

(** Every public operation ends with a refresh of the list it leaves. *)
Lemma apply_op_refreshes (self : OffsetGridLayout) (op : LayoutOp) :
  exists earlier,
    grid_calls (apply_op self op)
    = earlier ++ refresh_calls (apply_op self op).
Proof. destruct op; simpl; by eexists. Qed.

(** X5: whatever operations are run on a new layout, it never holds a
    widget twice. *)
Theorem layout_never_holds_duplicates (max_columns : Z)
  (ops : list LayoutOp) :
  NoDup (_widgets (foldl apply_op (new_layout max_columns) ops)).
Proof. apply run_ops_NoDup. constructor. Qed.

(** X6: [insert] takes any index. A widget already held leaves the list
    as it is; a new one is added exactly once, the widgets held before
    keeping their order; and for an index from 0 to the length the new
    widget sits at that index. *)
Theorem insert_adds_once (index : Z) (widget : nat)
  (self : OffsetGridLayout) :
  let after := _widgets (insert index widget self) in
  (widget ∈ _widgets self -> after = _widgets self) /\
  (widget ∉ _widgets self ->
   after ≡ₚ widget :: _widgets self /\
   (0 <= index <= len self -> after !! Z.to_nat index = Some widget)) /\
  _widgets self `sublist_of` after.
Proof.
  unfold insert, _internal_insert. simpl.
  split; [|split].
  - intros Hin. by rewrite bool_decide_eq_true_2.
  - intros Hout. rewrite bool_decide_eq_false_2 by done. simpl.
    split; [apply list_insert_perm|]. intros Hi. unfold len in Hi.
    destruct (list_insert_split index widget (_widgets self))
      as (n & Hn & -> & En).
    rewrite <- (En Hi).
    rewrite lookup_app_r by (rewrite length_take; lia).
    rewrite length_take. by replace (n - n `min` length (_widgets self))%nat
      with 0%nat by lia.
  - case_bool_decide; [done|]. apply list_insert_sublist.
Qed.

(** X7: [extend] keeps the widgets held before as the beginning of the
    list and holds afterwards exactly those and the given ones; [append]
    is [extend] with one widget. *)
Theorem extend_adds_at_end (widgets : list nat) (self : OffsetGridLayout) :
  _widgets self `prefix_of` _widgets (extend widgets self) /\
  (forall x, x ∈ _widgets (extend widgets self)
             <-> x ∈ _widgets self \/ x ∈ widgets) /\
  (forall widget, append widget self = extend [widget] self).
Proof.
  destruct (extend_loop widgets self) as (Hpre & Hin & _ & _).
  split; [exact Hpre|]. split; [exact Hin|]. done.
Qed.

(** X8: after any run of operations on a new layout of at least one
    column, the last calls made on the grid are those of a refresh of
    the list now held: one call per widget, in the order of the list, no
    widget twice, and no two calls covering a common field. *)
Theorem refresh_places_widgets_apart (max_columns : Z)
  (ops : list LayoutOp) :
  1 <= max_columns -> ops <> [] ->
  let layout := foldl apply_op (new_layout max_columns) ops in
  let calls := refresh_calls layout in
  (exists earlier, grid_calls layout = earlier ++ calls) /\
  added_widget <$> calls = _widgets layout /\
  NoDup (added_widget <$> calls) /\
  (forall (a b : nat) (ca cb : AddWidget) (row col : Z),
     calls !! a = Some ca -> calls !! b = Some cb -> a <> b ->
     ~ (covers ca row col /\ covers cb row col)).
Proof.
  intros Hm Hne layout calls.
  assert (Hw : added_widget <$> calls = _widgets layout).
  { unfold calls, refresh_calls. apply list_eq. intros i.
    rewrite list_lookup_fmap, list_lookup_imap.
    by destruct (_widgets layout !! i). }
  split; [|split; [exact Hw|split]].
  - unfold calls, layout.
    destruct (exists_last Hne) as (ops' & op & E).
    rewrite E, foldl_app. simpl. apply apply_op_refreshes.
  - rewrite Hw. apply run_ops_NoDup. constructor.
  - intros a b ca cb row col Ha Hb Hab.
    unfold calls, refresh_calls in Ha, Hb.
    rewrite list_lookup_imap in Ha, Hb.
    destruct (_widgets layout !! a) as [wa|]; [|done].
    destruct (_widgets layout !! b) as [wb|]; [|done].
    simpl in Ha, Hb. injection Ha as <-. injection Hb as <-.
    apply ScrollAreaSpec.get_position_disjoint; try lia.
    unfold layout. by rewrite run_ops_columns.
Qed.

Lemma refresh_places_widgets_apart_witness :
  let layout :=
    foldl apply_op (new_layout 2)
          [OpExtend [7; 8; 7; 9]%nat; OpInsert (-1) 5%nat; OpAppend 8%nat] in
  let calls := refresh_calls layout in
  (exists earlier, grid_calls layout = earlier ++ calls) /\
  added_widget <$> calls = _widgets layout /\
  NoDup (added_widget <$> calls) /\
  (forall (a b : nat) (ca cb : AddWidget) (row col : Z),
     calls !! a = Some ca -> calls !! b = Some cb -> a <> b ->
     ~ (covers ca row col /\ covers cb row col)).
Proof.
  exact (refresh_places_widgets_apart 2
           [OpExtend [7; 8; 7; 9]%nat; OpInsert (-1) 5%nat; OpAppend 8%nat]
           ltac:(lia) ltac:(discriminate)).
Defined.

(** The run of the witness: the double 7 and the second 8 are skipped
    and the index -1 puts 5 before the last widget. *)
Example layout_run :
  let layout :=
    foldl apply_op (new_layout 2)
          [OpExtend [7; 8; 7; 9]%nat; OpInsert (-1) 5%nat; OpAppend 8%nat] in
  _widgets layout = [7; 8; 5; 9]%nat /\
  fmap (M := list)
       (fun c => (added_widget c, gridrow (added_at c), gridcol (added_at c)))
       (refresh_calls layout)
  = [(7%nat, 0, 0); (8%nat, 0, 2); (5%nat, 2, 1); (9%nat, 4, 0)].
Proof. by vm_compute. Qed.

End GridLayoutSpec.

(** ** Label widgets *)
Module LabelWidgetSpec.
Import LabelWidgets ScrollArea ScrollAreaChildren.

Section Widget.
Context {Label Display : Type}.
Implicit Types (w : LabelWidget Label Display) (d : Display)
  (ev : WidgetEvent Label Display).

Lemma handle_cursor_agrees w d ev :
  cursor_agrees w -> cursor_agrees (handle (w, d) ev).1.
Proof.
  unfold cursor_agrees. intros Hinv.
  destruct ev as [[]|[]|i|[]| |]; simpl;
    try done; try (split; discriminate).
  destruct (_draggable w) eqn:E; simpl; rewrite ?E; done.
Qed.

Lemma run_cursor_agrees (events : list (WidgetEvent Label Display)) :
  forall (s : LabelWidget Label Display * Display),
    cursor_agrees s.1 -> cursor_agrees (foldl handle s events).1.
Proof.
  induction events as [|ev events IH]; intros [w d] Hinv; [done|].
  simpl. apply IH. by apply handle_cursor_agrees.
Qed.

(** X9: from its creation on, whatever is set on the widget and whatever
    events reach it, its cursor is the arrow exactly when it is
    draggable (and the cross otherwise). *)
Theorem cursor_shows_draggable (l : Label) (is_unscaled : bool) d
  (events : list (WidgetEvent Label Display)) :
  let w := (foldl handle (new_widget l is_unscaled, d) events).1 in
  cursor_shape w = ArrowCursor <-> _draggable w = true.
Proof. apply (run_cursor_agrees events (new_widget l is_unscaled, d)). done. Qed.

Lemma handle_undraggable w d ev :
  makes_draggable ev = false ->
  _draggable w = false ->
  _draggable (handle (w, d) ev).1 = false /\
  drags (handle (w, d) ev).1 = drags w.
Proof.
  intros Hev Hd.
  destruct ev as [[]|[]|i|[]| |]; simpl in *; try done.
  by rewrite Hd.
Qed.

Lemma run_undraggable (events : list (WidgetEvent Label Display)) :
  forall (s : LabelWidget Label Display * Display),
    forallb (fun ev => negb (makes_draggable ev)) events = true ->
    _draggable s.1 = false ->
    _draggable (foldl handle s events).1 = false /\
    drags (foldl handle s events).1 = drags s.1.
Proof.
  induction events as [|ev events IH]; intros [w d] Hev Hd; [done|].
  simpl in Hev. apply andb_true_iff in Hev as [Hne Hev].
  apply negb_true_iff in Hne.
  destruct (handle_undraggable w d ev Hne Hd) as [Hd' Hdr'].
  simpl. destruct (IH (handle (w, d) ev) Hev Hd') as [H1 H2].
  split; [done|]. by rewrite H2, Hdr'.
Qed.

(** X10: disabling a widget makes it undraggable, and enabling it again
    does not undo that: until [draggable] itself is set to True the
    widget starts no drag on any mouse press and its border never takes
    the active colour, hovered or not. *)
Theorem disabled_widget_stays_undraggable w d
  (events : list (WidgetEvent Label Display)) :
  forallb (fun ev => negb (makes_draggable ev)) events = true ->
  let after := (foldl handle (set_enabled false w, d) events).1 in
  _draggable after = false /\
  cursor_shape (set_enabled false w) = CrossCursor /\
  drags after = drags w /\
  _border_color after <> active_color.
Proof.
  intros Hev after.
  destruct (run_undraggable events (set_enabled false w, d) Hev eq_refl)
    as [Hd Hdr].
  fold after in Hd, Hdr. repeat split; try done.
  unfold _border_color. rewrite Hd, andb_false_r.
  by destruct (negb _).
Qed.

End Widget.

Lemma disabled_widget_stays_undraggable_witness :
  let w : LabelWidget string unit := new_widget "brush"%string false in
  let after :=
    (foldl handle (set_enabled false w, tt)
           [SetEnabled true; Enter; MousePress LeftButton]).1 in
  _draggable after = false /\
  cursor_shape (set_enabled false w) = CrossCursor /\
  drags after = drags w /\
  _border_color after <> active_color.
Proof.
  exact (disabled_widget_stays_undraggable
           (new_widget "brush"%string false) tt
           [SetEnabled true; Enter; MousePress LeftButton] eq_refl).
Defined.

Section Children.
Context {Label : Type} (pretty_name : Label -> string).

Lemma extend_fresh (widgets : list nat) :
  forall self : OffsetGridLayout,
    NoDup (_widgets self ++ widgets) ->
    _widgets (extend widgets self) = _widgets self ++ widgets.
Proof.
  unfold extend. simpl.
  induction widgets as [|x widgets IH]; intros self Hnd; simpl.
  - by rewrite app_nil_r.
  - rewrite IH.
    + rewrite GridLayoutSpec.internal_insert_end.
      rewrite bool_decide_eq_false_2; [by rewrite <- app_assoc|].
      apply NoDup_app in Hnd as (_ & Hd & _).
      intros Hin. apply (Hd x Hin). by left.
    + rewrite GridLayoutSpec.internal_insert_end.
      rewrite bool_decide_eq_false_2; [by rewrite <- app_assoc|].
      apply NoDup_app in Hnd as (_ & Hd & _).
      intros Hin. apply (Hd x Hin). by left.
Qed.

(** X11: the scroll area creates one child per label, in order: the
    [i]-th child shows the [i]-th label, is unscaled, enabled and
    draggable, and the layout holds exactly the children; hovering a
    child puts the pretty name of its label on the display of the area
    and leaving it empties the display, each with one repaint. *)
Theorem children_show_their_labels (labels : list Label) (columns : Z) :
  _widgets (scroll_area_layout pretty_name labels columns)
  = seq 0 (length labels) /\
  forall (i : nat) (child : LabelWidget Label string) (shown : string),
    _create_children pretty_name labels !! i = Some child ->
    labels !! i = Some (label child) /\
    _is_unscaled child = true /\ _enabled child = true /\
    _draggable child = true /\
    (enterEvent child shown).2 = pretty_name (label child) /\
    _hovered (enterEvent child shown).1 = true /\
    (leaveEvent (enterEvent child shown).1 (enterEvent child shown).2).2
    = EmptyString /\
    repaints (leaveEvent (enterEvent child shown).1 shown).1
    = S (S (repaints child)).
Proof.
  split.
  - unfold scroll_area_layout, _create_children.
    rewrite length_fmap, extend_fresh; [done|]. apply NoDup_seq.
  - intros i child shown Hi. unfold _create_children in Hi.
    rewrite list_lookup_fmap in Hi.
    destruct (labels !! i) as [l|]; [|done].
    simpl in Hi. injection Hi as <-. by repeat split.
Qed.

End Children.

End LabelWidgetSpec.

(** ** Node controllers *)
Module NodeControllerSpec.
Import NodeControllers.

(** X12: for the opacity, blending mode and visibility of the active
    layer alike, [set_value] followed by [get_value] returns the value
    set, the two other attributes are left alone, the document is
    refreshed once when the value differs from the current one and not
    at all when it is the same, and setting the same value again changes
    nothing. *)
Theorem layer_set_value_refreshes_on_change (self : NodeBasedController)
  (o : Z) (b : BlendingMode) (v : bool) :
  (let after := LayerOpacityController.set_value o self in
   LayerOpacityController.get_value after = o /\
   blending_mode (active_node after) = blending_mode (active_node self) /\
   visible (active_node after) = visible (active_node self) /\
   document_refreshes after
   = (document_refreshes self
      + (if bool_decide (LayerOpacityController.get_value self = o)
         then 0 else 1))%nat /\
   LayerOpacityController.set_value o after = after) /\
  (let after := LayerBlendingModeController.set_value b self in
   LayerBlendingModeController.get_value after = b /\
   opacity (active_node after) = opacity (active_node self) /\
   visible (active_node after) = visible (active_node self) /\
   document_refreshes after
   = (document_refreshes self
      + (if bool_decide (LayerBlendingModeController.get_value self = b)
         then 0 else 1))%nat /\
   LayerBlendingModeController.set_value b after = after) /\
  (let after := LayerVisibilityController.set_value v self in
   LayerVisibilityController.get_value after = v /\
   opacity (active_node after) = opacity (active_node self) /\
   blending_mode (active_node after) = blending_mode (active_node self) /\
   document_refreshes after
   = (document_refreshes self
      + (if bool_decide (LayerVisibilityController.get_value self = v)
         then 0 else 1))%nat /\
   LayerVisibilityController.set_value v after = after).
Proof.
  unfold LayerOpacityController.set_value, LayerOpacityController.get_value,
    LayerBlendingModeController.set_value,
    LayerBlendingModeController.get_value,
    LayerVisibilityController.set_value, LayerVisibilityController.get_value.
  repeat split;
    repeat (case_bool_decide; simpl in *); try done; try lia;
    try congruence.
Qed.

End NodeControllerSpec.

(** ** The strategies of the layer picker *)
Module LayerPickerSpec.
Import LayerPicker.

Section Strategies.
Context {Node : Type} `{EqDecision Node} (is_visible : Node -> bool).

(** X13: the visible strategy picks, in the order of the document, the
    nodes that are visible or are the current node: a hidden current node
    stays pickable, so the list is not empty when the current node is
    among the nodes; when every node is visible it picks what the
    all strategy picks. *)
Theorem pick_visible_keeps_current (document : Document Node) :
  (forall node,
     node ∈ pick_visible is_visible document <->
     node ∈ all_nodes document /\
     (is_visible node = true \/ node = current_node document)) /\
  pick_visible is_visible document `sublist_of` pick_all document /\
  (current_node document ∈ all_nodes document ->
   current_node document ∈ pick_visible is_visible document) /\
  (Forall (fun node => is_visible node = true) (all_nodes document) ->
   pick_visible is_visible document = pick_all document).
Proof.
  unfold pick_visible, pick_all.
  assert (Hin : forall node,
            node ∈ List.filter
                     (fun node => is_visible node
                                  || bool_decide (node = current_node document))
                     (all_nodes document) <->
            node ∈ all_nodes document /\
            (is_visible node = true \/ node = current_node document)).
  { intros node. rewrite !list_elem_of_In, filter_In, orb_true_iff.
    by rewrite bool_decide_eq_true. }
  split; [exact Hin|]. split; [|split].
  - clear Hin. induction (all_nodes document) as [|n ns IH]; simpl; [done|].
    destruct (is_visible n || bool_decide (n = current_node document));
      [by apply sublist_skip | by apply sublist_cons].
  - intros Hc. apply Hin. split; [done|by right].
  - clear Hin. intros Hall.
    induction (all_nodes document) as [|n ns IH]; simpl; [done|].
    apply Forall_cons in Hall as [Hn Hall].
    rewrite Hn. simpl. by rewrite IH.
Qed.

End Strategies.

End LayerPickerSpec.

(** ** Repeated undo and redo *)
Module UndoRunSpec.
Import Runs.

Lemma set_value_times_succ (n : nat) (self : UndoController) (v : Q) :
  set_value_times (S n) self v
  = ((set_value_times n (set_value self v).1 v).1,
     (set_value self v).2 ++ (set_value_times n (set_value self v).1 v).2).
Proof. done. Qed.

Lemma set_value_times_at_target (n : nat) (self : UndoController) (v : Q) :
  state self = py_round v -> set_value_times n self v = (self, []).
Proof.
  intros E. induction n as [|n IH]; [done|].
  rewrite set_value_times_succ. unfold set_value. rewrite E, Z.eqb_refl.
  simpl. by rewrite IH.
Qed.

Lemma set_value_times_run (d : nat) :
  forall (n : nat) (self : UndoController) (v : Q),
    Z.abs (py_round v - state self) = Z.of_nat d ->
    (d <= n)%nat ->
    set_value_times n self v
    = (mkUndo (py_round v),
       replicate d (if state self <? py_round v
                    then "edit_redo"%string else "edit_undo"%string)).
Proof.
  induction d as [|d IH]; intros n self v Hd Hn.
  - rewrite set_value_times_at_target by lia.
    destruct self as [s]. simpl in *. f_equal. f_equal. lia.
  - destruct n as [|n]; [lia|].
    rewrite set_value_times_succ.
    assert (E : set_value self v
                = if state self <? py_round v
                  then (mkUndo (state self + 1), ["edit_redo"%string])
                  else (mkUndo (state self - 1), ["edit_undo"%string])).
    { unfold set_value.
      destruct (Z.eqb_spec (py_round v) (state self)); [lia|].
      destruct (Z.gtb_spec (py_round v) (state self)),
               (Z.ltb_spec (state self) (py_round v)); try lia; done. }
    rewrite E.
    destruct (Z.ltb_spec (state self) (py_round v)); simpl.
    + rewrite (IH n (mkUndo (state self + 1)) v) by (simpl; lia). simpl.
      destruct d as [|d]; [done|].
      by destruct (Z.ltb_spec (state self + 1) (py_round v)); [|lia].
    + rewrite (IH n (mkUndo (state self - 1)) v) by (simpl; lia). simpl.
      destruct d as [|d]; [done|].
      by destruct (Z.ltb_spec (state self - 1) (py_round v)); [lia|].
Qed.

(** X14: calls of [set_value] repeated with one value walk the
    remembered position to round(v): once as many calls were made as the
    position was away, it is round(v), exactly that many host actions
    were triggered, all redo when the target is above and all undo when
    it is below, and further calls trigger nothing. *)
Theorem repeated_set_value_reaches_target (n : nat)
  (self : UndoController) (v : Q) :
  (Z.to_nat (Z.abs (py_round v - state self)) <= n)%nat ->
  set_value_times n self v
  = (mkUndo (py_round v),
     replicate (Z.to_nat (Z.abs (py_round v - state self)))
               (if state self <? py_round v
                then "edit_redo"%string else "edit_undo"%string)).
Proof.
  intros Hn. apply set_value_times_run; [lia|done].
Qed.

Lemma repeated_set_value_reaches_target_witness :
  set_value_times 5 (mkUndo 0) (-5 # 2)
  = (mkUndo (-2), ["edit_undo"; "edit_undo"]%string).
Proof.
  exact (repeated_set_value_reaches_target 5 (mkUndo 0) (-5 # 2)
           ltac:(vm_compute; lia)).
Defined.

End UndoRunSpec.

(** ** More on configuration fields *)
Module FieldFrameSpec.
Import Scenario FieldSpec.

Lemma write_run (f : FieldBase) (v : PyVal) (w : World) :
  isinstance v (type_of (default f)) = true ->
  exists (b : bool) (reads : list Event),
    mutations reads = [] /\ (forall k, writes_to k reads = []) /\
    (b = true <-> redundant f (store w) v) /\
    write f v w
    = (inr tt,
       if b then mkWorld (store w) (trace w ++ reads)
       else mkWorld (<[key f := field_to_string f v]> (store w))
                    (trace w ++ reads ++
                     EvWriteSetting (config_group f) (name f)
                                    (field_to_string f v)
                     :: (EvCallback <$> on_change_callbacks f))).
Proof.
  intros Hty.
  destruct (is_write_redundant_run f v w) as (b & reads & Hrun & Hm & Hw & Hb).
  exists b, reads. repeat split; try done; try apply Hb.
  unfold write. rewrite Hty. simpl. unfold bind. rewrite Hrun.
  destruct b; [done|].
  unfold write_setting. simpl. rewrite run_callbacks_run. simpl.
  by rewrite <- !app_assoc.
Qed.

(** X15: a call of [write], whether it writes, is redundant or raises,
    leaves every entry of the store other than the field's own as it
    is and writes under no other key. *)
Theorem write_touches_own_key_only (f : FieldBase) (v : PyVal) (w : World)
  (k : Key) :
  k <> key f ->
  store (write f v w).2 !! k = store w !! k /\
  writes_to k (trace (write f v w).2) = writes_to k (trace w).
Proof.
  intros Hk.
  destruct (isinstance v (type_of (default f))) eqn:Hty.
  - destruct (write_run f v w Hty) as (b & reads & _ & Hw & _ & ->).
    destruct b; simpl.
    + by rewrite writes_to_app, Hw, app_nil_r.
    + rewrite lookup_insert_ne by done. split; [done|].
      rewrite !writes_to_app, Hw. simpl.
      rewrite bool_decide_eq_false_2 by (intros E; by apply Hk).
      by rewrite writes_to_callbacks, !app_nil_r.
  - unfold write. by rewrite Hty.
Qed.

Lemma write_touches_own_key_only_witness :
  store (write fps_field (VInt 60) world_fps_30).2
    !! ("ShortcutComposer"%string, "Pie animation time"%string)
  = store world_fps_30
      !! ("ShortcutComposer"%string, "Pie animation time"%string) /\
  writes_to ("ShortcutComposer"%string, "Pie animation time"%string)
            (trace (write fps_field (VInt 60) world_fps_30).2)
  = writes_to ("ShortcutComposer"%string, "Pie animation time"%string)
              (trace world_fps_30).
Proof.
  exact (write_touches_own_key_only fps_field (VInt 60) world_fps_30
           ("ShortcutComposer"%string, "Pie animation time"%string)
           ltac:(discriminate)).
Defined.

(** X16: writing is idempotent for a field that reads back what it
    stores: when [read] returns a value equal to [v] once the string of
    [v] is stored, a second [write] of [v] right after the first only
    reads: no store write, no callback. *)
Theorem second_write_is_redundant (f : FieldBase) (v : PyVal) (w : World) :
  isinstance v (type_of (default f)) = true ->
  py_eq (field_read f (<[key f := field_to_string f v]> (store w))) v = true ->
  exists reads : list Event,
    mutations reads = [] /\
    write f v (write f v w).2
    = (inr tt,
       mkWorld (store (write f v w).2) (trace (write f v w).2 ++ reads)).
Proof.
  intros Hty Hback.
  destruct (write_run f v w Hty) as (b & reads & _ & _ & Hb & E).
  destruct (write_run f v (write f v w).2 Hty)
    as (b' & reads' & Hm' & _ & Hb' & E').
  exists reads'. split; [done|]. rewrite E'.
  assert (b' = true) as ->; [|done].
  apply Hb'. rewrite E. destruct b; simpl.
  - by apply Hb.
  - by left.
Qed.

Lemma second_write_is_redundant_witness :
  exists reads : list Event,
    mutations reads = [] /\
    write fps_field (VInt 60) (write fps_field (VInt 60) world_fps_30).2
    = (inr tt,
       mkWorld (store (write fps_field (VInt 60) world_fps_30).2)
               (trace (write fps_field (VInt 60) world_fps_30).2 ++ reads)).
Proof.
  exact (second_write_is_redundant fps_field (VInt 60) world_fps_30
           eq_refl ltac:(by vm_compute)).
Defined.

(** X17: a callback registered on a field runs after the callbacks
    registered before it, once per write that changes the store; it
    changes neither what [write] returns nor what it stores, and a
    redundant or rejected write does not run it. *)
Theorem registered_callback_runs_last (f : FieldBase) (callback : nat)
  (v : PyVal) (w : World) :
  let f' := register_callback f callback in
  (write f' v w).1 = (write f v w).1 /\
  store (write f' v w).2 = store (write f v w).2 /\
  (isinstance v (type_of (default f)) = true /\ ~ redundant f (store w) v ->
   trace (write f' v w).2 = trace (write f v w).2 ++ [EvCallback callback]) /\
  (~ (isinstance v (type_of (default f)) = true /\ ~ redundant f (store w) v) ->
   trace (write f' v w).2 = trace (write f v w).2).
Proof.
  intros f'.
  destruct (is_write_redundant_run f v w) as (b & reads & Hrun & _ & _ & Hb).
  assert (Hrun' : _is_write_redundant f' v w
                  = (inr b, mkWorld (store w) (trace w ++ reads))) by exact Hrun.
  unfold write.
  change (isinstance v (type_of (default f')))
    with (isinstance v (type_of (default f))).
  destruct (isinstance v (type_of (default f))) eqn:Hty; simpl.
  - unfold bind. rewrite Hrun, Hrun'. destruct b; simpl.
    + repeat split; try done. intros [_ Hn]. destruct Hn. by apply Hb.
    + unfold write_setting. simpl. rewrite !run_callbacks_run. simpl.
      repeat split; try done.
      * intros _. rewrite fmap_app. simpl. by rewrite <- !app_assoc.
      * intros Hn. destruct Hn. split; [done|]. intros Hr.
        apply Hb in Hr. discriminate.
  - repeat split; try done. by intros [? _].
Qed.

End FieldFrameSpec.

(** ** Resetting twice *)
Module ResetTwiceSpec.
Import Scenario FieldSpec.

(** A field reads its default back once the string of the default is
    stored for it. *)
Lemma not_stale_after_reset (f : FieldBase) (st st' : gmap Key string) :
  reads_own_key f ->
  py_eq (field_read f (<[key f := field_to_string f (default f)]> st))
        (default f) = true ->
  st' !! key f = Some (field_to_string f (default f)) ->
  ~ stale f st'.
Proof.
  intros Hloc Hback Hk [_ Hne].
  rewrite (Hloc st' (<[key f := field_to_string f (default f)]> st)) in Hne.
  - congruence.
  - by rewrite lookup_insert_eq.
Qed.

(** X18: the sweep is idempotent for fields with distinct keys that read
    their own entry and read their default back once it is stored: a
    second [reset_defaults] right after the first raises nothing, writes
    nothing and leaves the store as the first sweep left it. *)
Theorem reset_defaults_twice (cls : list (string * ClassAttr)) (w : World) :
  NoDup (key <$> fields_of cls) ->
  Forall reads_own_key (fields_of cls) ->
  Forall (fun f => forall st : gmap Key string,
            py_eq (field_read f
                     (<[key f := field_to_string f (default f)]> st))
                  (default f) = true)
         (fields_of cls) ->
  exists w2,
    reset_defaults cls (reset_defaults cls w).2 = (inr tt, w2) /\
    store w2 = store (reset_defaults cls w).2 /\
    forall k, writes_to k (trace w2)
              = writes_to k (trace (reset_defaults cls w).2).
Proof.
  intros Hnd Hloc Hback.
  destruct (reset_defaults_run cls w Hnd Hloc) as (w1 & E1 & Hout1 & Hin1).
  rewrite E1. simpl.
  destruct (reset_defaults_run cls w1 Hnd Hloc) as (w2 & E2 & Hout2 & Hin2).
  exists w2. split; [done|].
  assert (Hfresh : forall f, f ∈ fields_of cls -> ~ stale f (store w1)).
  { intros f Hf.
    assert (Hf_loc : reads_own_key f) by (by eapply Forall_forall in Hloc).
    assert (Hf_back := proj1 (Forall_forall _ _) Hback f Hf).
    destruct (Hin1 f Hf) as [Hyes Hno].
    destruct (classic_stale f (store w)) as [Hs|Hs].
    - destruct (Hyes Hs) as [Hk _].
      by apply (not_stale_after_reset f (store w) (store w1)).
    - destruct (Hno Hs) as [Hk _]. intros Hs1. apply Hs.
      by apply (stale_local f (store w1) (store w)). }
  assert (Hall : forall k, store w2 !! k = store w1 !! k /\
                           writes_to k (trace w2) = writes_to k (trace w1)).
  { intros k. destruct (decide (k ∈ key <$> fields_of cls)) as [Hk|Hk].
    - apply list_elem_of_fmap in Hk as (f & -> & Hf).
      destruct (Hin2 f Hf) as [_ Hno]. by apply Hno, Hfresh.
    - by apply Hout2. }
  split.
  - apply map_eq. intros k. apply Hall.
  - intros k. apply Hall.
Qed.

Lemma Config_defaults_read_back :
  Forall (fun f => forall st : gmap Key string,
            py_eq (field_read f
                     (<[key f := field_to_string f (default f)]> st))
                  (default f) = true)
         (fields_of Config).
Proof.
  repeat constructor; intros st;
    unfold key; cbn [field_read config_group name ImmutableField
                     SHORT_VS_LONG_PRESS_TIME TRACKER_SENSITIVITY_SCALE
                     TRACKER_DEADZONE FPS_LIMIT PIE_GLOBAL_SCALE
                     PIE_ICON_GLOBAL_SCALE PIE_DEADZONE_GLOBAL_SCALE
                     PIE_ANIMATION_TIME];
    unfold Key; rewrite lookup_insert_eq; by vm_compute.
Qed.

Lemma reset_defaults_twice_witness :
  exists w2,
    reset_defaults Config (reset_defaults Config world_fps_30).2
    = (inr tt, w2) /\
    store w2 = store (reset_defaults Config world_fps_30).2 /\
    forall k, writes_to k (trace w2)
              = writes_to k (trace (reset_defaults Config world_fps_30).2).
Proof.
  exact (reset_defaults_twice Config world_fps_30
           Config_keys_distinct Config_fields_read_own_key
           Config_defaults_read_back).
Defined.

End ResetTwiceSpec.

(** ** More on the sleep time *)
Module SleepTimeBoundsSpec.
Import PyFacts.

(** The rounded value is within one half of the number. *)
Lemma py_round_error (x : Q) :
  (x - (1 # 2) <= inject_Z (py_round x) <= x + (1 # 2))%Q.
Proof.
  pose proof (Qfloor_le x) as Hlo. pose proof (Qlt_floor x) as Hhi.
  rewrite inject_Z_plus in Hhi. change (inject_Z 1) with 1%Q in Hhi.
  unfold py_round. cbv zeta.
  destruct (Qcompare (x - inject_Z (Qfloor x)) (1 # 2)) eqn:Hc.
  - apply Qeq_alt in Hc.
    destruct (Z.even (Qfloor x)).
    + split; lra.
    + rewrite inject_Z_plus. change (inject_Z 1) with 1%Q. split; lra.
  - apply Qlt_alt in Hc. split; lra.
  - apply Qgt_alt in Hc. rewrite inject_Z_plus.
    change (inject_Z 1) with 1%Q. split; lra.
Qed.

(** Turns the result of a comparison of rationals into the order. *)
Ltac compared H :=
  first [ apply Qeq_alt in H | apply Qlt_alt in H | apply Qgt_alt in H ].

(** Rounding keeps the order. *)
Lemma py_round_mono (x y : Q) : (x <= y)%Q -> py_round x <= py_round y.
Proof.
  intros Hxy.
  pose proof (Qfloor_resp_le x y Hxy) as Hf.
  destruct (decide (Qfloor x = Qfloor y)) as [E|Hne].
  - unfold py_round. cbv zeta. rewrite E.
    destruct (Qcompare (x - inject_Z (Qfloor y)) (1 # 2)) eqn:Hx,
             (Qcompare (y - inject_Z (Qfloor y)) (1 # 2)) eqn:Hy;
      compared Hx; compared Hy;
      try (exfalso; lra); destruct (Z.even (Qfloor y)); lia.
  - destruct (py_round_floor_or_next x), (py_round_floor_or_next y); lia.
Qed.

Lemma truediv_times (fps : Z) :
  0 < fps -> (py_truediv 1000 fps * inject_Z fps == 1000)%Q.
Proof.
  intros H. unfold py_truediv. rewrite Qmult_comm, Qmult_div_r; [done|].
  intros E. assert (Hp : (0 < inject_Z fps)%Q).
  { change 0%Q with (inject_Z 0). rewrite <- Zlt_Qlt. lia. }
  rewrite E in Hp. by apply Qlt_irrefl in Hp.
Qed.

(** X19: for a positive FPS limit the sleep time is the millisecond
    count nearest to 1000/fps: sleep * fps differs from 1000 by at most
    half of fps. *)
Theorem get_sleep_time_is_nearest (fps : Z) :
  0 < fps -> 2 * Z.abs (get_sleep_time fps * fps - 1000) <= fps.
Proof.
  intros Hpos. unfold get_sleep_time, truthy.
  destruct (Z.eqb_spec fps 0) as [|_]; [lia|]. simpl.
  pose proof (py_round_error (py_truediv 1000 fps)) as [Hlo Hhi].
  pose proof (truediv_times fps Hpos) as Hq.
  set (s := py_round (py_truediv 1000 fps)) in *.
  set (q := py_truediv 1000 fps) in *.
  assert (Hp : (0 < inject_Z fps)%Q).
  { change 0%Q with (inject_Z 0). rewrite <- Zlt_Qlt. lia. }
  assert (H1 : ((q - (1 # 2)) * inject_Z fps <= inject_Z s * inject_Z fps)%Q).
  { apply Qmult_le_compat_r; [exact Hlo | lra]. }
  assert (H2 : (inject_Z s * inject_Z fps <= (q + (1 # 2)) * inject_Z fps)%Q).
  { apply Qmult_le_compat_r; [exact Hhi | lra]. }
  assert (H3 : (inject_Z (2 * (s * fps) - 2000) <= inject_Z fps)%Q).
  { unfold Z.sub. rewrite inject_Z_plus, !inject_Z_mult.
    change (inject_Z 2) with 2%Q. change (inject_Z (- (2000))) with (- (2000))%Q.
    lra. }
  assert (H4 : (inject_Z (2000 - 2 * (s * fps)) <= inject_Z fps)%Q).
  { unfold Z.sub. rewrite inject_Z_plus, inject_Z_opp, !inject_Z_mult.
    change (inject_Z 2) with 2%Q. change (inject_Z 2000) with 2000%Q.
    lra. }
  rewrite <- Zle_Qle in H3, H4. lia.
Qed.

Lemma get_sleep_time_is_nearest_witness :
  2 * Z.abs (get_sleep_time 60 * 60 - 1000) <= 60.
Proof. exact (get_sleep_time_is_nearest 60 ltac:(lia)). Defined.

(** X20: a higher positive FPS limit never gives a longer sleep time,
    and no positive limit gives more than 1000 ms. *)
Theorem get_sleep_time_antitone (a b : Z) :
  0 < a <= b ->
  get_sleep_time b <= get_sleep_time a /\ get_sleep_time a <= 1000.
Proof.
  intros [Ha Hab]. unfold get_sleep_time, truthy.
  destruct (Z.eqb_spec a 0) as [|_]; [lia|].
  destruct (Z.eqb_spec b 0) as [|_]; [lia|]. simpl.
  assert (Hpa : (0 < inject_Z a)%Q).
  { change 0%Q with (inject_Z 0). rewrite <- Zlt_Qlt. lia. }
  assert (Hpb : (0 < inject_Z b)%Q).
  { change 0%Q with (inject_Z 0). rewrite <- Zlt_Qlt. lia. }
  assert (Hle : (inject_Z a <= inject_Z b)%Q) by (by rewrite <- Zle_Qle).
  pose proof (truediv_times a Ha) as Hqa.
  pose proof (truediv_times b ltac:(lia)) as Hqb.
  pose proof (truediv_1000_pos a Ha) as Hra.
  pose proof (truediv_1000_pos b ltac:(lia)) as Hrb.
  split.
  - apply py_round_mono.
    destruct (Qlt_le_dec (py_truediv 1000 a) (py_truediv 1000 b))
      as [Hlt|]; [|done].
    exfalso.
    assert (py_truediv 1000 a * inject_Z a
            < py_truediv 1000 b * inject_Z b)%Q; [|lra].
    apply Qlt_le_trans with (py_truediv 1000 b * inject_Z a)%Q.
    + by apply Qmult_lt_compat_r.
    + rewrite !(Qmult_comm (py_truediv 1000 b)).
      apply Qmult_le_compat_r; [done | lra].
  - change 1000 with (py_round 1000) at 2. apply py_round_mono.
    destruct (Qlt_le_dec 1000 (py_truediv 1000 a)) as [Hlt|]; [|done].
    exfalso.
    assert (Hone : (1 <= inject_Z a)%Q).
    { change 1%Q with (inject_Z 1). rewrite <- Zle_Qle. lia. }
    assert (1000 * inject_Z a < py_truediv 1000 a * inject_Z a)%Q.
    { by apply Qmult_lt_compat_r. }
    lra.
Qed.

Lemma get_sleep_time_antitone_witness :
  get_sleep_time 144 <= get_sleep_time 60 /\ get_sleep_time 60 <= 1000.
Proof. exact (get_sleep_time_antitone 60 144 ltac:(lia)). Defined.

End SleepTimeBoundsSpec.

(** ** More on the double-axis tracker *)
Module AxisTrackerPressSpec.
Import AxisTrackers AxisTrackerSpec.

(** X21: from a tracker just created, no sequence of key events, cursor
    moves and timeouts raises: the timer is started only by a key press,
    which sets the comparator first, so the timeout slot never misses
    its [_comparator] attribute. *)
Theorem fresh_tracker_never_raises (inputs : list Input) (cur : Point) :
  exists s', run inputs (mkSystem cur new_tracker) = inr s'.
Proof. apply run_never_raises. simpl. discriminate. Qed.

(** While the decision timer runs and no key is pressed anew, at most
    one handler is started. *)
Lemma armed_run (inputs : list Input) :
  forall (cur : Point) (t : DoubleAxisTracker) (c : MouseComparator),
    comparator t = Some c ->
    timer_active t = true ->
    forallb (fun i => negb (is_key_press i)) inputs = true ->
    exists s',
      run inputs (mkSystem cur t) = inr s' /\
      (started (calls (tracker s')) = started (calls t) \/
       exists axis, started (calls (tracker s')) = started (calls t) ++ [axis]).
Proof.
  induction inputs as [|i inputs IH]; intros cur t c Hc Ha Hk.
  - exists (mkSystem cur t). split; [done|]. by left.
  - simpl in Hk. apply andb_true_iff in Hk as [Hi Hk].
    destruct i; simpl in Hi; try discriminate; simpl.
    + destruct (IH cur (on_every_key_release t) c Hc Ha Hk)
        as (s' & Hrun & Hs).
      exists s'. split; [done|].
      simpl in Hs. rewrite started_app in Hs. simpl in Hs.
      by rewrite app_nil_r in Hs.
    + rewrite Ha. unfold _start_after_picking_slider. rewrite Hc.
      destruct ((delta_x c cur <=? 10) && (delta_y c cur <=? 10)).
      * by apply (IH cur t c).
      * set (picked := if is_horizontal c cur then Horizontal else Vertical).
        destruct (stopped_timer_run inputs
                    (mkSystem cur
                       (mkTracker (Some c) false (calls t ++ [HStart picked])))
                    eq_refl Hk) as (s' & Hrun & _ & Hs).
        exists s'. split; [done|]. right. exists picked.
        rewrite Hs. simpl. by rewrite started_app.
    + by apply (IH p t c).
Qed.

(** X22: one press starts at most one handler: from a key press until
    the next one, whatever the cursor and the timer do and however often
    the key is released, the handlers started so far grow by none or by
    exactly one. *)
Theorem one_handler_per_press (t : DoubleAxisTracker) (cur : Point)
  (inputs : list Input) :
  forallb (fun i => negb (is_key_press i)) inputs = true ->
  exists s',
    run (KeyPress :: inputs) (mkSystem cur t) = inr s' /\
    (started (calls (tracker s')) = started (calls t) \/
     exists axis, started (calls (tracker s')) = started (calls t) ++ [axis]).
Proof.
  intros Hk. simpl.
  by apply (armed_run inputs cur (on_key_press cur t)
              (mkComparator cur.1 cur.2)).
Qed.

Lemma one_handler_per_press_witness :
  exists s',
    run (KeyPress :: [CursorMove (0, 30); Timeout; CursorMove (90, 30);
                      Timeout; KeyRelease; Timeout])
        (mkSystem (0, 0) new_tracker) = inr s' /\
    (started (calls (tracker s')) = started (calls new_tracker) \/
     exists axis,
       started (calls (tracker s')) = started (calls new_tracker) ++ [axis]).
Proof.
  exact (one_handler_per_press new_tracker (0, 0)
           [CursorMove (0, 30); Timeout; CursorMove (90, 30);
            Timeout; KeyRelease; Timeout] eq_refl).
Defined.

End AxisTrackerPressSpec.

(** ** The polling loop of the pie manager *)
Module PiePollSpec.
Import AxisTrackers PieMenu Runs Scenario.

Section Pie.
Context {Label Angle : Type} `{EqDecision Label}.
Implicit Types (m : PieManager Label Angle).

Lemma set_active_label_effect (a : option Label) m :
  let m' := _set_active_label a m in
  active (pie_widget m') = a /\
  label_holder (pie_widget m') = label_holder (pie_widget m) /\
  visible (pie_widget m') = visible (pie_widget m) /\
  deadzone (pie_widget m') = deadzone (pie_widget m) /\
  on_angle (pie_widget m') = on_angle (pie_widget m) /\
  circle m' = circle m /\
  timer_running m' = timer_running m /\
  animator_running m'
  = animator_running m || bool_decide (a ≠ active (pie_widget m)) /\
  _set_active_label a m' = m'.
Proof.
  unfold _set_active_label. case_bool_decide as Hne; simpl;
    assert (Hsame : bool_decide (a ≠ a) = false)
      by (apply bool_decide_eq_false; intros Hn; by apply Hn).
  - rewrite Hsame.
    assert (Hch : bool_decide (a ≠ active (pie_widget m)) = true).
    { apply bool_decide_eq_true. intros E. by apply Hne. }
    rewrite Hch. by rewrite orb_true_r.
  - destruct (decide (active (pie_widget m) = a)) as [E|Hn];
      [|by destruct Hne].
    assert (Hun : bool_decide (active (pie_widget m) ≠ a) = false).
    { apply bool_decide_eq_false. intros Hn. by apply Hn. }
    rewrite Hun, E, Hsame. by rewrite orb_false_r.
Qed.

(** X23: for a visible widget, [_handle_cursor] outside the deadzone
    makes the label on the cursor's angle active; in every case it
    leaves the labels' progress, the visibility and the tracking timer as
    they are, starts the animator exactly when the active label changed,
    and handling the same position again changes nothing. *)
Theorem handle_cursor_visible (cursor : Point) m :
  visible (pie_widget m) = true ->
  let m' := _handle_cursor cursor m in
  (~ (distance (circle m) cursor < deadzone (pie_widget m))%Q ->
   active (pie_widget m')
   = Some (on_angle (pie_widget m) (angle_from_point (circle m) cursor))) /\
  label_holder (pie_widget m') = label_holder (pie_widget m) /\
  visible (pie_widget m') = true /\
  timer_running m' = timer_running m /\
  animator_running m'
  = animator_running m
    || bool_decide (active (pie_widget m') ≠ active (pie_widget m)) /\
  _handle_cursor cursor m' = m'.
Proof.
  intros Hv. unfold _handle_cursor. rewrite Hv. simpl.
  destruct (Qltb (distance (circle m) cursor) (deadzone (pie_widget m)))
    eqn:Hd.
  - destruct (set_active_label_effect None m)
      as (Ha & Hl & Hvis & Hdz & Hon & Hc & Ht & Han & Hid).
    cbv zeta in *. rewrite Hvis, Hv, Hc, Hdz, Hd. simpl.
    rewrite Ha. repeat split; try done.
    intros Hn. destruct Hn. by apply PieSpec.Qltb_lt.
  - set (a := Some (on_angle (pie_widget m)
                      (angle_from_point (circle m) cursor))).
    destruct (set_active_label_effect a m)
      as (Ha & Hl & Hvis & Hdz & Hon & Hc & Ht & Han & Hid).
    cbv zeta in *. rewrite Hvis, Hv, Hc, Hdz, Hd, Hon. simpl.
    rewrite Ha. fold a. by repeat split.
Qed.

Lemma stopped_polls (cursors : list Point) m :
  timer_running m = false -> foldl poll m cursors = m.
Proof.
  intros Hs. induction cursors as [|c cursors IH]; [done|].
  simpl. unfold poll at 2. by rewrite Hs.
Qed.

(** X24: the tracking loop ends itself when the widget was hidden from
    outside: the first timeout after that stops the timer without
    looking at the cursor, leaves the widget hidden, the active label
    and the animator's timer as they are, and no later timeout changes
    anything. *)
Theorem hidden_pie_stops_polling (cursor : Point) (cursors : list Point) m :
  visible (pie_widget m) = false ->
  timer_running m = true ->
  let m' := poll m cursor in
  timer_running m' = false /\
  visible (pie_widget m') = false /\
  active (pie_widget m') = active (pie_widget m) /\
  animator_running m' = animator_running m /\
  foldl poll m' cursors = m'.
Proof.
  intros Hv Ht m'.
  assert (E : m' = stop true m).
  { unfold m', poll. rewrite Ht. unfold _handle_cursor. by rewrite Hv. }
  rewrite E. repeat split. by apply stopped_polls.
Qed.

End Pie.

Lemma handle_cursor_visible_witness :
  let m := compass_pie true None in
  let cursor : Point := (150, 100) in
  let m' := _handle_cursor cursor m in
  (~ (distance (circle m) cursor < deadzone (pie_widget m))%Q ->
   active (pie_widget m')
   = Some (on_angle (pie_widget m) (angle_from_point (circle m) cursor))) /\
  label_holder (pie_widget m') = label_holder (pie_widget m) /\
  visible (pie_widget m') = true /\
  timer_running m' = timer_running m /\
  animator_running m'
  = animator_running m
    || bool_decide (active (pie_widget m') ≠ active (pie_widget m)) /\
  _handle_cursor cursor m' = m'.
Proof.
  exact (handle_cursor_visible (150, 100) (compass_pie true None) eq_refl).
Defined.

Lemma hidden_pie_stops_polling_witness :
  let m := compass_pie false (Some "brush"%string) in
  let m' := poll m (100, 100) in
  timer_running m' = false /\
  visible (pie_widget m') = false /\
  active (pie_widget m') = active (pie_widget m) /\
  animator_running m' = animator_running m /\
  foldl poll m' [(150, 100); (100, 30)] = m'.
Proof.
  exact (hidden_pie_stops_polling (100, 100) [(150, 100); (100, 30)]
           (compass_pie false (Some "brush"%string)) eq_refl eq_refl).
Defined.

End PiePollSpec.
